(** * The tool-calling agent of [agent.cxx]: registry, history and loop

    A shallow embedding of the classes [Tool], [ToolRegistry] and [Agent]
    of [src/agent.cxx] and of the command loop of its [main], with the
    properties that the specification states about them.

    Conventions of the embedding.
    - [nlohmann::json] documents that the program only stores and forwards
      (tool parameters, input schemas) are values of the type [json].
      Documents whose members the program reads (messages, content blocks,
      tool definitions, the response body) are modelled by the typed view
      of the members that are read.  A body whose blocks lack the members
      that [process_response] reads has no such view and is left out.
    - [std::map<std::string, Tool>] is a list of bindings kept in strictly
      ascending key order, which is the order in which a range-for visits
      the map; keys compare as [std::string] does, byte by byte and then by
      length ([String.compare]).
    - [int] is [Z].  The only arithmetic is [iteration + 1] under the test
      [iteration < max_iterations], so no value leaves the range of [int].
    - A C++ call that may throw returns a [Completion]; the state that the
      methods of [Agent] mutate (the object itself, the console, the
      requests posted to the backend) is passed explicitly. *)

From Stdlib Require Import String List ZArith Bool Lia.
From Stdlib Require Import Sorting.Sorted Structures.OrderedTypeEx.
Import ListNotations.

Local Open Scope string_scope.
Local Open Scope list_scope.

(** ** Structured values *)

(** The values of [nlohmann::json] that the program passes around without
    looking inside.  Numbers are restricted to integers. *)
#[local] Unset Elimination Schemes.
Inductive json : Type :=
| j_null
| j_boolean (b : bool)
| j_number (z : Z)
| j_string (s : string)
| j_array (items : list json)
| j_object (members : list (string * json)).
#[local] Set Elimination Schemes.

(** ** Exceptions *)

(** The exceptions that can leave a function of the program.  [catch (const
    std::exception&)] in [ToolRegistry::execute] stops every exception
    derived from [std::exception]; an object of any other type thrown by an
    executor passes through it.  [json::parse] throws [json::parse_error]. *)
Inductive Exn : Type :=
| parse_error
| foreign_exception.

Inductive Completion (A : Type) : Type :=
| Normal (a : A)
| Raised (e : Exn).
Arguments Normal {A} a.
Arguments Raised {A} e.

(** ** class Tool *)

(** What one call [executor(params)] does. *)
Inductive Invocation : Type :=
| Returns (result : string)
| ThrowsStd (what : string)   (* an exception derived from std::exception *)
| ThrowsOther.                (* a thrown object of any other type *)

Record Tool : Type := {
  name : string;
  description : string;
  input_schema : json;
  executor : json -> Invocation
}.

(** The object built by [Tool::to_json]. *)
Record ToolDef : Type := {
  def_name : string;
  def_description : string;
  def_input_schema : json
}.

Definition to_json (tool : Tool) : ToolDef :=
  {| def_name := name tool;
     def_description := description tool;
     def_input_schema := input_schema tool |}.

(** ** std::map with string keys *)

Module StdMap.
Section WithValue.
Context {V : Type}.

Definition t : Type := list (string * V).

Definition empty : t := [].

Definition is_empty (m : t) : bool :=
  match m with [] => true | _ :: _ => false end.

(** [m.find(k)]: the value bound to [k], or [None] for [m.end()]. *)
Fixpoint find (k : string) (m : t) : option V :=
  match m with
  | [] => None
  | (k', v) :: m' => if String.eqb k k' then Some v else find k m'
  end.

(** [m[k] = v]: binds [k] to [v], in place when [k] is already a key. *)
Fixpoint assign (k : string) (v : V) (m : t) : t :=
  match m with
  | [] => [(k, v)]
  | (k', v') :: m' =>
      match String.compare k k' with
      | Lt => (k, v) :: m
      | Eq => (k, v) :: m'
      | Gt => (k', v') :: assign k v m'
      end
  end.

(** The bindings in the order of iteration. *)
Definition elements (m : t) : list (string * V) := m.

Definition keys (m : t) : list string := map fst m.

Definition key_lt (a b : string) : Prop := String.ltb a b = true.

(** The representation invariant: keys strictly ascending. *)
Definition ordered (m : t) : Prop := StronglySorted key_lt (keys m).
End WithValue.
Arguments t : clear implicits.
End StdMap.

(** ** class ToolRegistry *)

Module ToolRegistry.

Record t : Type := { tools : StdMap.t Tool }.

(** A registry as the constructor of [Agent] leaves it. *)
Definition init : t := {| tools := StdMap.empty |}.

(** [tools[tool.name] = tool].  The line written to the console is added
    by [Agent.register_tool]. *)
Definition register_tool (tool : Tool) (r : t) : t :=
  {| tools := StdMap.assign (name tool) tool (tools r) |}.

(** [execute] is not a const member: it returns the registry it leaves
    behind, next to its result. *)
Definition execute (tool_name : string) (params : json) (r : t)
  : Completion string * t :=
  match StdMap.find tool_name (tools r) with
  | Some tool =>
      match executor tool params with
      | Returns result => (Normal result, r)
      | ThrowsStd what => (Normal ("Error: " ++ what)%string, r)
      | ThrowsOther => (Raised foreign_exception, r)
      end
  | None => (Normal ("Error: Tool '" ++ tool_name ++ "' not found")%string, r)
  end.

(** Const members read the registry. *)
Definition get_tool_definitions (r : t) : list ToolDef :=
  map (fun binding => to_json (snd binding)) (StdMap.elements (tools r)).

Definition has_tools (r : t) : bool := negb (StdMap.is_empty (tools r)).

(** The registry after a sequence of [register_tool] calls, first call
    first. *)
Definition registered (calls : list Tool) : t :=
  fold_left (fun r tool => register_tool tool r) calls init.

End ToolRegistry.

(** ** Messages *)

Inductive Role : Type := user | assistant.

(** One element of a ["content"] array, by its member ["type"]. *)
Inductive ContentBlock : Type :=
| Text (text : string)
| ToolUse (id tool_name : string) (input : json)
| ToolResult (tool_use_id output : string)
| OtherBlock (raw : json).   (* any other ["type"] *)

(** ["content"] of a message: a string, or an array of blocks. *)
Inductive Content : Type :=
| plain (text : string)
| blocks (items : list ContentBlock).

Record Message : Type := { role : Role; content : Content }.

(** ** The backend and the console *)

(** The document sent by [cpr::Post] in [call_api]. *)
Record Request : Type := {
  req_api_key : string;
  req_model : string;
  req_max_tokens : Z;
  req_messages : list Message;
  req_tools : option (list ToolDef)   (* member "tools", when present *)
}.

(** A parsed body, by what [run_iteration] and [process_response] ask of
    it.  The member ["content"] is an array of blocks ([null] is visited
    like the empty array). *)
Inductive Body : Type :=
| empty_document                               (* null, {} or [] *)
| no_content                                   (* non-empty, no member "content" *)
| with_content (items : list ContentBlock).    (* an object with "content" *)

Definition empty (response : Body) : bool :=
  match response with empty_document => true | _ => false end.

Definition contains_content (response : Body) : bool :=
  match response with with_content _ => true | _ => false end.

Definition content_of (response : Body) : list ContentBlock :=
  match response with with_content items => items | _ => [] end.

(** A [cpr::Response].  [parse] is the result of [json::parse(text)], [None]
    when it throws. *)
Record Response : Type := {
  status_code : Z;
  text : string;
  parse : option Body
}.

(** The backend answers a request knowing every request posted so far (the
    last element is the one being answered). *)
Definition Backend : Type := list Request -> Response.

(** A line written to [std::cout] or [std::cerr], by the statement that
    writes it. *)
Inductive Output : Type :=
| out_created (model_name : string)              (* the constructor of Agent *)
| out_registered (tool_name : string)            (* register_tool *)
| out_api_error (status : Z) (text : string)     (* call_api, cerr *)
| out_invalid_response                           (* process_response, cerr *)
| out_text (text : string)                       (* a text block *)
| out_tool_call (tool_name : string) (input : json)
| out_tool_result (result : string)
| out_max_iterations (bound : Z)                 (* the bound was reached *)
| out_iteration (iteration : Z)                  (* run_iteration *)
| out_user (user_input : string)                 (* run, opening *)
| out_rule                                       (* run, closing rule *)
| out_reset                                      (* reset *)
| out_history (history : list Message)           (* print_history *)
| out_goodbye.                                   (* main, on quit *)

(** The [return] statement that ended a run, and how a call ended. *)
Inductive Site : Type :=
| at_api_empty    (* run_iteration: [call_api] gave an empty document *)
| at_invalid      (* process_response: empty or without "content" *)
| at_limit        (* process_response: [iteration < max_iterations] failed *)
| at_end.         (* process_response: the last statement *)

(** The [bool] that the statement returns. *)
Definition value (site : Site) : bool :=
  match site with at_end => true | _ => false end.

Inductive Exit : Type :=
| Returned (site : Site)
| Thrown (e : Exn).

(** ** class Agent *)

Module Agent.

Record t : Type := {
  api_key : string;
  model : string;
  tool_registry : ToolRegistry.t;
  conversation_history : list Message;
  max_iterations : Z
}.

(** Everything a member function can change. *)
Record State : Type := {
  self : t;
  console : list Output;
  posted : list Request
}.

(** The object that the constructor initialises. *)
Definition create (key model_name : string) (max_iter : Z) : t :=
  {| api_key := key; model := model_name;
     tool_registry := ToolRegistry.init;
     conversation_history := [];
     max_iterations := max_iter |}.

Definition set_history (h : list Message) (a : t) : t :=
  {| api_key := api_key a; model := model a;
     tool_registry := tool_registry a;
     conversation_history := h;
     max_iterations := max_iterations a |}.

Definition set_registry (r : ToolRegistry.t) (a : t) : t :=
  {| api_key := api_key a; model := model a;
     tool_registry := r;
     conversation_history := conversation_history a;
     max_iterations := max_iterations a |}.

Definition update (f : t -> t) (s : State) : State :=
  {| self := f (self s); console := console s; posted := posted s |}.

(** [conversation_history.push_back(m)] *)
Definition push_back (m : Message) (s : State) : State :=
  update (fun a => set_history (conversation_history a ++ [m]) a) s.

Definition print (line : Output) (s : State) : State :=
  {| self := self s; console := console s ++ [line]; posted := posted s |}.

Definition post (request : Request) (s : State) : State :=
  {| self := self s; console := console s; posted := posted s ++ [request] |}.

Definition history (s : State) : list Message :=
  conversation_history (self s).

Section WithBackend.
Variable backend : Backend.

Definition call_api (messages : list Message) (tools : list ToolDef)
    (s : State) : State * Completion Body :=
  let request :=
    {| req_api_key := api_key (self s);
       req_model := model (self s);
       req_max_tokens := 4096;
       req_messages := messages;
       req_tools := match tools with [] => None | _ :: _ => Some tools end |}
  in
  let s := post request s in
  let response := backend (posted s) in
  if negb (status_code response =? 200)%Z then
    (print (out_api_error (status_code response) (text response)) s,
     Normal empty_document)
  else
    match parse response with
    | Some document => (s, Normal document)
    | None => (s, Raised parse_error)
    end.

(** The loop of [process_response] over the blocks still to visit;
    [next] stands for [run_iteration]. *)
Fixpoint each_block (next : Z -> State -> option (State * Exit))
    (iteration : Z) (todo : list ContentBlock)
    (assistant_content : list ContentBlock) (has_tool_use : bool)
    (s : State) : option (State * Exit) :=
  match todo with
  | [] =>
      let s :=
        if negb has_tool_use
        then push_back {| role := assistant;
                          content := blocks assistant_content |} s
        else s in
      Some (s, Returned at_end)
  | block :: todo =>
      let assistant_content := assistant_content ++ [block] in
      match block with
      | Text text =>
          each_block next iteration todo assistant_content has_tool_use
            (print (out_text text) s)
      | ToolUse tool_id tool_name tool_input =>
          let s := print (out_tool_call tool_name tool_input) s in
          let '(result, registry) :=
            ToolRegistry.execute tool_name tool_input
              (tool_registry (self s)) in
          let s := update (set_registry registry) s in
          match result with
          | Raised e => Some (s, Thrown e)
          | Normal result =>
              let s := print (out_tool_result result) s in
              let s := push_back {| role := assistant;
                                    content := blocks assistant_content |} s in
              let s := push_back {| role := user;
                                    content := blocks [ToolResult tool_id result] |} s in
              if (iteration <? max_iterations (self s))%Z
              then next (iteration + 1)%Z s
              else Some (print (out_max_iterations (max_iterations (self s))) s,
                         Returned at_limit)
          end
      | _ =>
          each_block next iteration todo assistant_content has_tool_use s
      end
  end.

Definition process_response (next : Z -> State -> option (State * Exit))
    (response : Body) (iteration : Z) (s : State)
    : option (State * Exit) :=
  if empty response || negb (contains_content response) then
    Some (print out_invalid_response s, Returned at_invalid)
  else
    each_block next iteration (content_of response) [] false s.

(** [run_iteration] calls itself through [process_response]; [fuel]
    bounds the depth of that recursion. *)
Fixpoint run_iteration_within (fuel : nat) (iteration : Z) (s : State)
    : option (State * Exit) :=
  match fuel with
  | O => None
  | S fuel =>
      let s := print (out_iteration iteration) s in
      let tools :=
        if ToolRegistry.has_tools (tool_registry (self s))
        then ToolRegistry.get_tool_definitions (tool_registry (self s))
        else [] in
      let '(s, response) := call_api (history s) tools s in
      match response with
      | Raised e => Some (s, Thrown e)
      | Normal response =>
          if empty response then Some (s, Returned at_api_empty)
          else process_response (run_iteration_within fuel) response
                 iteration s
      end
  end.

(** The depth never exceeds the number of iterations left. *)
Definition depth (iteration : Z) (s : State) : nat :=
  S (Z.to_nat (max_iterations (self s) - iteration)).

Definition run_iteration (iteration : Z) (s : State)
    : option (State * Exit) :=
  run_iteration_within (depth iteration s) iteration s.

(** [run] is [void]: the site is kept to say how the run ended, the
    caller does not receive it. *)
Definition run (user_input : string) (s : State)
    : option (State * Exit) :=
  let s := print (out_user user_input) s in
  let s := push_back {| role := user; content := plain user_input |} s in
  match run_iteration 1 s with
  | Some (s, Returned site) => Some (print out_rule s, Returned site)
  | Some (s, Thrown e) => Some (s, Thrown e)
  | None => None
  end.
End WithBackend.

Definition register_tool (tool : Tool) (s : State) : State :=
  print (out_registered (name tool))
    (update (fun a => set_registry
               (ToolRegistry.register_tool tool (tool_registry a)) a) s).

Definition reset (s : State) : State :=
  print out_reset (update (set_history []) s).

Definition print_history (s : State) : State :=
  print (out_history (history s)) s.

(** [Agent agent(key, model_name, max_iter)] in a process that has written
    and posted nothing yet. *)
Definition construct (key model_name : string) (max_iter : Z) : State :=
  {| self := create key model_name max_iter;
     console := [out_created model_name];
     posted := [] |}.

(** The default arguments of the constructor. *)
Definition default_model : string := "claude-sonnet-4-20250514".
Definition default_max_iter : Z := 10.

End Agent.

(** ** The command loop of main *)

(** How the process stands after the lines read so far. *)
Inductive Process : Type :=
| reading (s : Agent.State)                 (* waiting for the next line *)
| exited (s : Agent.State)                  (* [return 0] *)
| terminated (s : Agent.State) (e : Exn).   (* uncaught exception *)

Fixpoint main_loop (backend : Backend) (lines : list string)
    (s : Agent.State) : option Process :=
  match lines with
  | [] => Some (reading s)
  | input :: lines =>
      if String.eqb input "quit" || String.eqb input "exit" then
        Some (exited (Agent.print out_goodbye s))
      else if String.eqb input "reset" then
        main_loop backend lines (Agent.reset s)
      else if String.eqb input "history" then
        main_loop backend lines (Agent.print_history s)
      else if String.eqb input "" then
        main_loop backend lines s
      else
        match Agent.run backend input s with
        | Some (s, Returned _) => main_loop backend lines s
        | Some (s, Thrown e) => Some (terminated s e)
        | None => None
        end
  end.

(** ** Vocabulary of the properties *)

Module ToolRegistrySpec.
Import ToolRegistry.

(** Every binding files a tool under its own name. *)
Definition filed (r : t) : Prop :=
  Forall (fun binding => fst binding = name (snd binding)) (tools r).

Definition well_formed (r : t) : Prop :=
  StdMap.ordered (tools r) /\ filed r.

Definition exported_names (r : t) : list string :=
  map def_name (get_tool_definitions r).

(** The tool that the last call of [register_tool] under [k] handed in. *)
Definition latest (k : string) (calls : list Tool) : option Tool :=
  List.find (fun tool => String.eqb k (name tool)) (rev calls).
End ToolRegistrySpec.

(** ** Vocabulary of the loop *)

Module AgentSpec.
Import Agent.

Definition is_tool_use (block : ContentBlock) : bool :=
  match block with ToolUse _ _ _ => true | _ => false end.

Definition no_tool_use (items : list ContentBlock) : Prop :=
  Forall (fun block => is_tool_use block = false) items.

Definition assistant_says (items : list ContentBlock) : Message :=
  {| role := assistant; content := blocks items |}.

Definition tool_reply (id result : string) : Message :=
  {| role := user; content := blocks [ToolResult id result] |}.

Definition user_says (user_input : string) : Message :=
  {| role := user; content := plain user_input |}.

(** What the loop of [process_response] writes for blocks that are not a
    tool use. *)
Definition texts (items : list ContentBlock) : list Output :=
  flat_map (fun block =>
              match block with Text text => [out_text text] | _ => [] end)
           items.

Definition surface (items : list ContentBlock) (s : State) : State :=
  {| self := self s; console := console s ++ texts items; posted := posted s |}.

(** The request that [run_iteration] has [call_api] send from [s]. *)
Definition request_of (s : State) : Request :=
  let tools :=
    if ToolRegistry.has_tools (tool_registry (self s))
    then ToolRegistry.get_tool_definitions (tool_registry (self s))
    else [] in
  {| req_api_key := api_key (self s);
     req_model := model (self s);
     req_max_tokens := 4096;
     req_messages := history s;
     req_tools := match tools with [] => None | _ :: _ => Some tools end |}.

(** The state in which iteration [iteration] waits for the backend, and the
    response it gets. *)
Definition asked (iteration : Z) (s : State) : State :=
  post (request_of s) (print (out_iteration iteration) s).

Definition answer (backend : Backend) (iteration : Z) (s : State) : Response :=
  backend (posted (asked iteration s)).

(** The two messages pushed for a tool use, and the state after the
    dispatch of the first tool use of a response. *)
Definition recorded (said : list ContentBlock) (id result : string)
    (s : State) : State :=
  push_back (tool_reply id result) (push_back (assistant_says said) s).

Definition dispatched (before : list ContentBlock) (id tool_name : string)
    (input : json) (result : string) (s : State) : State :=
  recorded (before ++ [ToolUse id tool_name input]) id result
    (print (out_tool_result result)
       (print (out_tool_call tool_name input) (surface before s))).

(** One call of [run_iteration], as a relation between the state before,
    the state after and the exit: one rule for each way through
    [call_api], [run_iteration] and [process_response]. *)
Inductive iterates (backend : Backend) : Z -> State -> State -> Exit -> Prop :=
| it_bad_status iteration s :
    status_code (answer backend iteration s) <> 200%Z ->
    iterates backend iteration s
      (print (out_api_error (status_code (answer backend iteration s))
                            (text (answer backend iteration s)))
             (asked iteration s))
      (Returned at_api_empty)
| it_unparseable iteration s :
    status_code (answer backend iteration s) = 200%Z ->
    parse (answer backend iteration s) = None ->
    iterates backend iteration s (asked iteration s) (Thrown parse_error)
| it_empty_document iteration s :
    status_code (answer backend iteration s) = 200%Z ->
    parse (answer backend iteration s) = Some empty_document ->
    iterates backend iteration s (asked iteration s) (Returned at_api_empty)
| it_no_content iteration s :
    status_code (answer backend iteration s) = 200%Z ->
    parse (answer backend iteration s) = Some no_content ->
    iterates backend iteration s
      (print out_invalid_response (asked iteration s)) (Returned at_invalid)
| it_final iteration s items :
    status_code (answer backend iteration s) = 200%Z ->
    parse (answer backend iteration s) = Some (with_content items) ->
    no_tool_use items ->
    iterates backend iteration s
      (push_back (assistant_says items) (surface items (asked iteration s)))
      (Returned at_end)
| it_tool_throws iteration s before id tool_name input after e :
    status_code (answer backend iteration s) = 200%Z ->
    parse (answer backend iteration s) =
      Some (with_content (before ++ ToolUse id tool_name input :: after)) ->
    no_tool_use before ->
    fst (ToolRegistry.execute tool_name input (tool_registry (self s))) = Raised e ->
    iterates backend iteration s
      (print (out_tool_call tool_name input) (surface before (asked iteration s)))
      (Thrown e)
| it_limit iteration s before id tool_name input after result :
    status_code (answer backend iteration s) = 200%Z ->
    parse (answer backend iteration s) =
      Some (with_content (before ++ ToolUse id tool_name input :: after)) ->
    no_tool_use before ->
    fst (ToolRegistry.execute tool_name input (tool_registry (self s))) = Normal result ->
    (max_iterations (self s) <= iteration)%Z ->
    iterates backend iteration s
      (print (out_max_iterations (max_iterations (self s)))
         (dispatched before id tool_name input result (asked iteration s)))
      (Returned at_limit)
| it_next iteration s before id tool_name input after result s' e :
    status_code (answer backend iteration s) = 200%Z ->
    parse (answer backend iteration s) =
      Some (with_content (before ++ ToolUse id tool_name input :: after)) ->
    no_tool_use before ->
    fst (ToolRegistry.execute tool_name input (tool_registry (self s))) = Normal result ->
    (iteration < max_iterations (self s))%Z ->
    iterates backend (iteration + 1)
      (dispatched before id tool_name input result (asked iteration s)) s' e ->
    iterates backend iteration s s' e.

(** Induction on a derivation of [iterates], one case for each rule, with
    the names that the proofs below use. *)
Ltac iterates_cases H :=
  induction H as
    [iteration s Hstatus
    |iteration s Hstatus Hparse
    |iteration s Hstatus Hparse
    |iteration s Hstatus Hparse
    |iteration s items Hstatus Hparse Hnone
    |iteration s before id tool_name input after e
       Hstatus Hparse Hbefore Hexec
    |iteration s before id tool_name input after result
       Hstatus Hparse Hbefore Hexec Hmax
    |iteration s before id tool_name input after result s' e
       Hstatus Hparse Hbefore Hexec Hlt Hrest IH].

Ltac iterates_induction :=
  let H := fresh "Hrun" in intros H; iterates_cases H.

Create HintDb loop.
#[export] Hint Constructors iterates : loop.

(** *** Tool uses and their replies in the history *)

Definition items_of (m : Message) : list ContentBlock :=
  match content m with blocks items => items | plain _ => [] end.

Definition tool_use_ids (m : Message) : list string :=
  flat_map (fun block => match block with ToolUse id _ _ => [id] | _ => [] end)
           (items_of m).

Definition tool_results (m : Message) : list (string * string) :=
  flat_map (fun block =>
              match block with ToolResult id output => [(id, output)] | _ => [] end)
           (items_of m).

(** The invariant of the history, by position: a tool use in an assistant
    message is answered by the next message, a user message whose one tool
    result carries the id of the tool use. *)
Definition answered (h : list Message) : Prop :=
  forall i m id tool_name input,
    nth_error h i = Some m ->
    role m = assistant ->
    In (ToolUse id tool_name input) (items_of m) ->
    exists reply output,
      nth_error h (S i) = Some reply /\
      role reply = user /\
      tool_results reply = [(id, output)].

(** The same, by recursion on the history. *)
Definition replied (m : Message) (rest : list Message) : Prop :=
  role m = assistant ->
  forall id, In id (tool_use_ids m) ->
    exists reply rest' output,
      rest = reply :: rest' /\ role reply = user /\
      tool_results reply = [(id, output)].

Fixpoint paired (h : list Message) : Prop :=
  match h with
  | [] => True
  | m :: rest => replied m rest /\ paired rest
  end.





(** The states a session goes through. *)
Inductive reachable : State -> Prop :=
| reach_construct key model_name max_iter :
    reachable (construct key model_name max_iter)
| reach_register s tool :
    reachable s -> reachable (register_tool tool s)
| reach_run backend s user_input s' e :
    reachable s -> run backend user_input s = Some (s', e) -> reachable s'
| reach_reset s :
    reachable s -> reachable (reset s)
| reach_print_history s :
    reachable s -> reachable (print_history s).

(** *** What a run shows *)






(** The state a run leaves, and how it ended. *)
Definition after_run (backend : Backend) (user_input : string) (s : State) : State :=
  match run backend user_input s with Some (s', _) => s' | None => s end.

End AgentSpec.

(** ** Sample tools *)

Definition object_schema : json :=
  j_object [("type", j_string "object"); ("properties", j_object []);
            ("required", j_array [])].

(** [params[key]] for an object that has the member. *)
Definition member (key : string) (params : json) : option json :=
  match params with
  | j_object members => StdMap.find key members
  | _ => None
  end.

(** Returns the member ["text"] of its parameters; when it is not a
    string, the conversion to [std::string] throws a [json::type_error]. *)
Definition echo : Tool :=
  {| name := "echo"; description := "repeat the text";
     input_schema := object_schema;
     executor := fun params =>
       match member "text" params with
       | Some (j_string s) => Returns s
       | _ => ThrowsStd "type must be string, but is null"
       end |}.


Definition clock : Tool :=
  {| name := "clock"; description := "current time";
     input_schema := object_schema;
     executor := fun _ => Returns "2024-01-01 00:00:00" |}.

(** An executor that fails with [throw 42;]. *)
Definition boom : Tool :=
  {| name := "boom"; description := "throws an int";
     input_schema := object_schema;
     executor := fun _ => ThrowsOther |}.


(** ** Sample backends and sessions *)

Definition says (items : list ContentBlock) : Response :=
  {| status_code := 200; text := "(a message)"; parse := Some (with_content items) |}.

Definition hi : json := j_object [("text", j_string "hi")].


(** The scenario of the specification: a tool use, then a text. *)
Definition tool_use_then_text : Backend :=
  fun requests =>
    match requests with
    | [_] => says [ToolUse "toolu_1" "echo" hi]
    | _ => says [Text "hi"]
    end.

(** Two tool uses in one response, with a text between and after. *)
Definition two_tool_uses : Backend :=
  fun _ => says [ToolUse "toolu_1" "echo" hi; Text "and";
                 ToolUse "toolu_2" "clock" (j_object []); Text "done"].


(** Answers every request with status 529. *)
Definition overloaded : Backend :=
  fun _ => {| status_code := 529; text := "overloaded"; parse := None |}.

(** Answers with status 200 and a body that is not JSON. *)
Definition garbled : Backend :=
  fun _ => {| status_code := 200; text := "<html>"; parse := None |}.

Definition session (max_iter : Z) : Agent.State :=
  Agent.register_tool clock
    (Agent.register_tool echo
       (Agent.construct "key" Agent.default_model max_iter)).


(** How [main_loop] stands, the number of requests posted, the history. *)
Inductive Standing : Type := is_reading | is_exited | is_terminated (e : Exn).

Definition standing (p : Process) : Standing * nat * list Message :=
  match p with
  | reading s => (is_reading, length (Agent.posted s), Agent.history s)
  | exited s => (is_exited, length (Agent.posted s), Agent.history s)
  | terminated s e => (is_terminated e, length (Agent.posted s), Agent.history s)
  end.

From Stdlib Require Import Sorting.Permutation DecimalString.

(** ** Vocabulary of a whole run *)

Module RunSpec.
Import Agent AgentSpec.

(** What a run appends after its tool turns: the assistant message of a
    response without tool use when it returns [true], nothing otherwise. *)
Definition closes (e : Exit) (closing : list Message) : Prop :=
  match e with
  | Returned at_end =>
      exists items, no_tool_use items /\ closing = [assistant_says items]
  | _ => closing = []
  end.

(** The backend calls of a run that no tool turn follows: none when the run
    stops at the bound, the last one otherwise. *)
Definition open_calls (e : Exit) : nat :=
  match e with Returned at_limit => 0 | _ => 1 end.

(** [n] tool turns in a row, each with the result that [execute] gives for
    the tool use in the registry [r]. *)
Inductive tool_turns (r : ToolRegistry.t) : nat -> list Message -> Prop :=
| turns_none : tool_turns r 0 []
| turns_more n before id tool_name input result rest :
    no_tool_use before ->
    fst (ToolRegistry.execute tool_name input r) = Normal result ->
    tool_turns r n rest ->
    tool_turns r (S n)
      (assistant_says (before ++ [ToolUse id tool_name input])
         :: tool_reply id result :: rest).


(** The lines that [main] handles itself. *)
Definition is_command (input : string) : bool :=
  String.eqb input "quit" || String.eqb input "exit" ||
  String.eqb input "reset" || String.eqb input "history" ||
  String.eqb input "".

(** A message that is not a command typed by the user. *)
Definition sendable (m : Message) : Prop :=
  match role m, content m with
  | user, plain text => is_command text = false
  | _, _ => True
  end.

Definition state_of (p : Process) : State :=
  match p with reading s | exited s | terminated s _ => s end.


End RunSpec.

(** ** The tools registered by main *)

(** The bodies of [read_file], [execute_command] and [http_get], from the
    statement after the one that reads the parameter: [path], [command] and
    [url] are the strings read.  What the bodies reach outside the process is
    a parameter: the files that open for reading, the shell behind [popen],
    the server behind [cpr::Get]. *)
Module Tools.

Definition newline : Ascii.ascii := Ascii.ascii_of_nat 10.
Definition nul : Ascii.ascii := Ascii.ascii_of_nat 0.

(** [std::to_string] of an integer. *)
Definition to_string (z : Z) : string :=
  DecimalString.NilZero.string_of_int (Z.to_int z).

(** [s.c_str()] read as a C string: the bytes before the first NUL. *)
Fixpoint c_str (s : string) : string :=
  match s with
  | EmptyString => EmptyString
  | String c rest => if Ascii.eqb c nul then EmptyString else String c (c_str rest)
  end.

(** *** read_file *)

(** [std::getline (file, line)] on the bytes still to read: the line
    without its newline and the bytes after it; [None] when no byte is left,
    which ends the loop. *)
Fixpoint until_newline (stream : string) : string * string :=
  match stream with
  | EmptyString => (EmptyString, EmptyString)
  | String c rest =>
      if Ascii.eqb c newline then (EmptyString, rest)
      else let '(line, rest') := until_newline rest in (String c line, rest')
  end.

Definition getline (stream : string) : option (string * string) :=
  match stream with
  | EmptyString => None
  | String _ _ => Some (until_newline stream)
  end.

(** [while (std::getline (file, line)) content += line + "\n";] *)
Fixpoint read_lines (fuel : nat) (stream content : string) : option string :=
  match fuel with
  | O => None
  | S fuel =>
      match getline stream with
      | None => Some content
      | Some (line, rest) =>
          read_lines fuel rest (content ++ line ++ String newline EmptyString)%string
      end
  end.

(** [files path]: the bytes of the file if it opens for reading. *)
Definition read_file (files : string -> option string) (path : string)
  : option string :=
  match files path with
  | None => Some ("Error: 无法打开文件 '" ++ path ++ "'")%string
  | Some bytes => read_lines (S (String.length bytes)) bytes EmptyString
  end.

(** *** execute_command *)

(** [hay.find (needle) != std::string::npos] *)
Definition found (needle hay : string) : bool :=
  match String.index 0 needle hay with Some _ => true | None => false end.

Definition dangerous (command : string) : bool :=
  found "rm -rf" command || found "mkfs" command.

(** [fgets (buffer, size, pipe)]: at most [size - 1] bytes, none after a
    newline; [None] at the end of the stream. *)
Fixpoint fgets_from (room : nat) (stream : string) : string * string :=
  match room, stream with
  | S room, String c rest =>
      if Ascii.eqb c newline then (String c EmptyString, rest)
      else let '(more, rest') := fgets_from room rest in (String c more, rest')
  | _, _ => (EmptyString, stream)
  end.

Definition fgets (size : nat) (stream : string) : option (string * string) :=
  match stream with
  | EmptyString => None
  | String _ _ => Some (fgets_from (size - 1) stream)
  end.

(** [while (fgets (...) != nullptr) result += buffer.data();] *)
Fixpoint gather (fuel : nat) (stream result : string) : option string :=
  match fuel with
  | O => None
  | S fuel =>
      match fgets 128 stream with
      | None => Some result
      | Some (buffer, rest) => gather fuel rest (result ++ c_str buffer)%string
      end
  end.

(** What one call does: the line written to [std::cout], the command line
    handed to [popen] if it got that far, and the string returned. *)
Record Ran : Type := {
  shown : string;
  launched : option string;
  reply : option string
}.

(** [shell line]: [None] when [popen] fails; otherwise the bytes that the
    command writes to its standard output and the value of [pclose]. *)
Definition execute_command (shell : string -> option (string * Z))
    (command : string) : Ran :=
  if dangerous command then
    {| shown := command; launched := None;
       reply := Some "Error: 危险命令被拒绝" |}
  else
    match shell (c_str command) with
    | None =>
        {| shown := command; launched := Some (c_str command);
           reply := Some "Error: 无法执行命令" |}
    | Some (output, status) =>
        {| shown := command; launched := Some (c_str command);
           reply :=
             match gather (S (String.length output)) output EmptyString with
             | Some result =>
                 Some (if (status =? 0)%Z then result
                       else result ++ String newline "[退出码: "
                                   ++ to_string status ++ "]")%string
             | None => None
             end |}
    end.

(** *** http_get *)


(** *** Vocabulary *)

Fixpoint has_nul (s : string) : bool :=
  match s with
  | EmptyString => false
  | String c rest => Ascii.eqb c nul || has_nul rest
  end.

(** The last byte, if any, is a newline. *)
Fixpoint ends_in_newline (s : string) : bool :=
  match s with
  | EmptyString => false
  | String c EmptyString => Ascii.eqb c newline
  | String _ rest => ends_in_newline rest
  end.

(** The bytes, with a newline after the last line if it has none. *)
Definition with_final_newline (bytes : string) : string :=
  match bytes with
  | EmptyString => EmptyString
  | String _ _ =>
      if ends_in_newline bytes then bytes
      else (bytes ++ String newline EmptyString)%string
  end.

(** What follows the output of a command whose [pclose] value is not 0. *)
Definition exit_note (status : Z) : string :=
  if (status =? 0)%Z then EmptyString
  else (String newline "[退出码: " ++ to_string status ++ "]")%string.

End Tools.

(** ** minimal_agent.cxx *)

Module Minimal.

Inductive Line : Type :=
| err_no_key                    (* main, cerr *)
| err_status (status : Z)       (* call_claude, cerr *)
| err_body (text : string)      (* call_claude, cerr *)
| out_dump (text : string).     (* main, cout *)

Inductive Ended : Type :=
| returned (code : Z)
| uncaught_parse_error.

(** [post api_key]: the status and body that [cpr::Post] comes back with
    for the one request that the program builds. *)
Definition call_claude (post : string -> Z * string) (api_key : string)
  : string * list Line :=
  let '(status_code, text) := post api_key in
  if negb (status_code =? 200)%Z
  then (EmptyString, [err_status status_code; err_body text])
  else (text, []).

(** [getenv]: the value of [ANTHROPIC_API_KEY]; [parse text]: the result of
    [json::parse], [None] when it throws; [dump]: [response.dump(4)]. *)
Definition main (getenv : option string) (post : string -> Z * string)
    (parse : string -> option json) (dump : json -> string)
  : Ended * list Line :=
  match getenv with
  | None => (returned 1, [err_no_key])
  | Some api_key =>
      let '(response_str, lines) := call_claude post api_key in
      match parse response_str with
      | None => (uncaught_parse_error, lines)
      | Some response => (returned 0, lines ++ [out_dump (dump response)])
      end
  end.

End Minimal.
(** * Properties of the map *)

Section StdMapFacts.
Context {V : Type}.
Implicit Types (m : StdMap.t V) (k : string) (v : V).
Import StdMap.

Lemma compare_lt k1 k2 : String.compare k1 k2 = Lt <-> key_lt k1 k2.
Proof.
  unfold key_lt, String.ltb.
  destruct (String.compare k1 k2); split; congruence.
Qed.

Lemma compare_gt k1 k2 : String.compare k1 k2 = Gt <-> key_lt k2 k1.
Proof.
  rewrite <- compare_lt, (String.compare_antisym k2 k1).
  destruct (String.compare k1 k2); simpl; split; congruence.
Qed.

Lemma compare_eq k1 k2 : String.compare k1 k2 = Eq <-> k1 = k2.
Proof. apply String_as_OT.cmp_eq. Qed.

Lemma key_lt_trans k1 k2 k3 : key_lt k1 k2 -> key_lt k2 k3 -> key_lt k1 k3.
Proof.
  rewrite <- !compare_lt.
  change String.compare with String_as_OT.cmp.
  rewrite !String_as_OT.cmp_lt. apply String_as_OT.lt_trans.
Qed.

Lemma key_lt_irrefl k : ~ key_lt k k.
Proof.
  rewrite <- compare_lt.
  assert (String.compare k k = Eq) as -> by now apply compare_eq.
  discriminate.
Qed.

Lemma keys_assign k v m k' :
  In k' (keys (assign k v m)) <-> k' = k \/ In k' (keys m).
Proof.
  induction m as [|[k0 v0] m IH]; simpl.
  - intuition.
  - destruct (String.compare k k0) eqn:C; simpl.
    + apply compare_eq in C. subst k0. intuition.
    + intuition.
    + rewrite IH. intuition.
Qed.

Lemma assign_ordered k v m : ordered m -> ordered (assign k v m).
Proof.
  unfold ordered.
  induction m as [|[k0 v0] m IH]; simpl; intros Hm.
  - repeat constructor.
  - inversion Hm as [|? ? Hsorted Hall]; subst.
    destruct (String.compare k k0) eqn:C; simpl.
    + apply compare_eq in C. subst k0. now constructor.
    + apply compare_lt in C. constructor; [exact Hm|].
      constructor; [exact C|].
      eapply Forall_impl; [|exact Hall].
      intros k1 H1. now apply key_lt_trans with k0.
    + apply compare_gt in C. constructor; [now apply IH|].
      apply Forall_forall. intros k1 H1.
      apply (keys_assign k v m k1) in H1. destruct H1 as [->|H1]; [exact C|].
      rewrite Forall_forall in Hall. now apply Hall.
Qed.

Lemma ordered_NoDup m : ordered m -> NoDup (keys m).
Proof.
  unfold ordered. induction 1 as [|k0 ks Hsorted IH Hall]; constructor.
  - intros Hin. rewrite Forall_forall in Hall.
    exact (key_lt_irrefl k0 (Hall _ Hin)).
  - exact IH.
Qed.

Lemma find_assign k v m k' :
  find k' (assign k v m) = if String.eqb k' k then Some v else find k' m.
Proof.
  induction m as [|[k0 v0] m IH]; simpl.
  - reflexivity.
  - destruct (String.compare k k0) eqn:C; simpl.
    + apply compare_eq in C. subst k0.
      now destruct (String.eqb k' k).
    + reflexivity.
    + rewrite IH.
      destruct (String.eqb k' k0) eqn:E0; [|reflexivity].
      apply String.eqb_eq in E0. subst k0.
      destruct (String.eqb k' k) eqn:E; [|reflexivity].
      apply String.eqb_eq in E. subst k'.
      apply compare_gt in C. now apply key_lt_irrefl in C.
Qed.

Lemma find_None_keys k m : find k m = None <-> ~ In k (keys m).
Proof.
  induction m as [|[k0 v0] m IH]; simpl.
  - intuition.
  - destruct (String.eqb k k0) eqn:E.
    + apply String.eqb_eq in E. subst. split; [discriminate|intuition].
    + apply String.eqb_neq in E. rewrite IH. intuition congruence.
Qed.

Lemma find_In k v m : find k m = Some v -> In (k, v) m.
Proof.
  induction m as [|[k0 v0] m IH]; simpl; [discriminate|].
  destruct (String.eqb k k0) eqn:E.
  - apply String.eqb_eq in E. subst. intros [= ->]. now left.
  - intros H. right. now apply IH.
Qed.

Lemma In_find k v m : ordered m -> In (k, v) m -> find k m = Some v.
Proof.
  intros Hm. apply ordered_NoDup in Hm. revert Hm.
  induction m as [|[k0 v0] m IH]; simpl; [intros _ []|].
  intros Hnd [H|H]; inversion Hnd as [|? ? Hnotin Hnd']; subst.
  - injection H as -> ->. now rewrite String.eqb_refl.
  - destruct (String.eqb k k0) eqn:E.
    + apply String.eqb_eq in E. subst k0. exfalso. apply Hnotin.
      change k with (fst (k, v)). now apply in_map.
    + now apply IH.
Qed.

Lemma In_assign k v m binding :
  In binding (assign k v m) -> binding = (k, v) \/ In binding m.
Proof.
  induction m as [|[k0 v0] m IH]; simpl.
  - intuition.
  - destruct (String.compare k k0); simpl; intuition.
Qed.

End StdMapFacts.

(** * Properties of the registry *)

Section ToolRegistryFacts.
Import ToolRegistry ToolRegistrySpec.
Implicit Types (r : ToolRegistry.t) (tool : Tool).

Lemma well_formed_init : well_formed init.
Proof. split; constructor. Qed.

Lemma well_formed_register tool r :
  well_formed r -> well_formed (register_tool tool r).
Proof.
  intros [Hord Hfiled]. split; simpl.
  - now apply assign_ordered.
  - unfold filed in *. simpl. apply Forall_forall. intros binding Hin.
    apply In_assign in Hin. destruct Hin as [->|Hin]; [reflexivity|].
    rewrite Forall_forall in Hfiled. now apply Hfiled.
Qed.

Lemma registered_snoc calls tool :
  registered (calls ++ [tool]) = register_tool tool (registered calls).
Proof. unfold registered. now rewrite fold_left_app. Qed.

Lemma well_formed_registered calls : well_formed (registered calls).
Proof.
  induction calls as [|tool calls IH] using rev_ind.
  - exact well_formed_init.
  - rewrite registered_snoc. now apply well_formed_register.
Qed.

Lemma keys_registered calls n :
  In n (StdMap.keys (tools (registered calls))) <-> In n (map name calls).
Proof.
  induction calls as [|tool calls IH] using rev_ind.
  - reflexivity.
  - rewrite registered_snoc, map_app, in_app_iff. simpl.
    rewrite keys_assign, IH. intuition.
Qed.

Lemma exported_names_keys r :
  filed r -> exported_names r = StdMap.keys (tools r).
Proof.
  unfold exported_names, get_tool_definitions, StdMap.elements, StdMap.keys, filed.
  rewrite map_map. intros Hfiled. apply map_ext_in. intros binding Hin.
  rewrite Forall_forall in Hfiled. simpl. symmetry. now apply Hfiled.
Qed.

(** The records exported for a well-formed registry are those of the tools
    found under their own names. *)
Lemma In_definitions r d :
  well_formed r ->
  In d (get_tool_definitions r) <->
  exists tool, StdMap.find (name tool) (tools r) = Some tool /\ d = to_json tool.
Proof.
  intros [Hord Hfiled]. unfold get_tool_definitions, StdMap.elements.
  rewrite in_map_iff. split.
  - intros ([k tool] & <- & Hin). exists tool. split; [|reflexivity].
    unfold filed in Hfiled. rewrite Forall_forall in Hfiled.
    pose proof (Hfiled _ Hin) as Hk. simpl in Hk. subst k.
    now apply In_find.
  - intros (tool & Hfind & ->). exists (name tool, tool). split; [reflexivity|].
    now apply find_In.
Qed.
End ToolRegistryFacts.

Section ToolRegistryClaims.
Import ToolRegistry ToolRegistrySpec.

Lemma find_registered k calls :
  StdMap.find k (tools (registered calls)) = latest k calls.
Proof.
  unfold latest.
  induction calls as [|tool calls IH] using rev_ind.
  - reflexivity.
  - rewrite registered_snoc, rev_app_distr. simpl.
    rewrite find_assign, IH. reflexivity.
Qed.

(** C4, as the program has it: whatever the order of the [register_tool]
    calls, [get_tool_definitions] exports the records in strictly ascending
    order of the tool names ([std::map] iterates by key), one record for each
    name that was registered and none besides; the record under a name is
    that of the tool registered last under it. *)
Theorem definitions_in_key_order (calls : list Tool) :
  StronglySorted StdMap.key_lt (exported_names (registered calls)) /\
  NoDup (exported_names (registered calls)) /\
  (forall n, In n (exported_names (registered calls)) <-> In n (map name calls)) /\
  (forall d, In d (get_tool_definitions (registered calls)) <->
             exists tool, latest (name tool) calls = Some tool /\ d = to_json tool).
Proof.
  destruct (well_formed_registered calls) as [Hord Hfiled].
  rewrite (exported_names_keys _ Hfiled).
  split; [exact Hord|].
  split; [now apply ordered_NoDup|].
  split; [intros n; apply keys_registered|].
  intros d. rewrite In_definitions by now split.
  split; intros (tool & Hfind & ->); exists tool; split; try reflexivity.
  - now rewrite <- find_registered.
  - now rewrite find_registered.
Qed.

(** C4 fails as stated: [echo] is registered before [clock], and [clock] is
    exported first. *)
Lemma definitions_not_in_registration_order :
  exported_names (registered [echo; clock]) = ["clock"; "echo"] /\
  exported_names (registered [echo; clock]) <> map name [echo; clock].
Proof.
  split.
  - reflexivity.
  - vm_compute. discriminate.
Qed.





(** The name of the specification's example is answered as it says,
    whatever the registry holds under other names. *)
Lemma execute_nonexistent (r : ToolRegistry.t) :
  StdMap.find "nonexistent" (tools r) = None ->
  fst (execute "nonexistent" (j_object []) r) =
    Normal "Error: Tool 'nonexistent' not found".
Proof.
  intros Habsent. unfold execute. rewrite Habsent. reflexivity.
Qed.


(** C10: [execute] hands back the registry it was given, so the bindings,
    the answers of [find] (an absent name stays absent), the export and
    [has_tools] are what they were.  The const members [get_tool_definitions]
    and [has_tools] are functions of the registry and have no registry of
    their own to hand back. *)
Theorem queries_leave_registry (tool_name : string) (params : json)
    (r : ToolRegistry.t) :
  snd (execute tool_name params r) = r /\
  (forall k, StdMap.find k (tools (snd (execute tool_name params r))) =
             StdMap.find k (tools r)) /\
  (StdMap.find tool_name (tools r) = None ->
   ~ In tool_name (StdMap.keys (tools (snd (execute tool_name params r))))) /\
  get_tool_definitions (snd (execute tool_name params r)) = get_tool_definitions r /\
  has_tools (snd (execute tool_name params r)) = has_tools r.
Proof.
  assert (Hsame : snd (execute tool_name params r) = r).
  { unfold execute.
    destruct (StdMap.find tool_name (tools r)) as [tool|]; [|reflexivity].
    destruct (executor tool params); reflexivity. }
  rewrite Hsame. repeat split; try reflexivity.
  intros Habsent. now apply find_None_keys.
Qed.
Lemma queries_leave_registry_witness :
  StdMap.find "nonexistent" (tools (registered [echo; clock])) = None /\
  snd (execute "nonexistent" (j_object []) (registered [echo; clock])) =
    registered [echo; clock] /\
  ~ In "nonexistent"
      (StdMap.keys (tools (snd (execute "nonexistent" (j_object [])
                                  (registered [echo; clock]))))).
Proof.
  assert (Habsent : StdMap.find "nonexistent" (tools (registered [echo; clock])) = None).
  { reflexivity. }
  destruct (queries_leave_registry "nonexistent" (j_object []) (registered [echo; clock]))
    as (Hsame & _ & Hkeys & _).
  split; [exact Habsent|]. split; [exact Hsame | exact (Hkeys Habsent)].
Defined.
End ToolRegistryClaims.

(** * Properties of the loop *)

Section LoopFacts.
Import Agent AgentSpec.
Implicit Types (s : State) (items before after : list ContentBlock).

Lemma same_registry s : update (set_registry (tool_registry (self s))) s = s.
Proof. destruct s as [[key m r h n] c p]. reflexivity. Qed.

Lemma execute_same_registry tool_name params r :
  snd (ToolRegistry.execute tool_name params r) = r.
Proof.
  unfold ToolRegistry.execute.
  destruct (StdMap.find tool_name (ToolRegistry.tools r)) as [tool|]; [|reflexivity].
  destruct (executor tool params); reflexivity.
Qed.

Lemma surface_nil s : surface [] s = s.
Proof. destruct s as [a c p]. unfold surface. simpl. now rewrite app_nil_r. Qed.

Lemma surface_text text items s :
  surface items (print (out_text text) s) = surface (Text text :: items) s.
Proof. unfold surface, print. simpl. now rewrite <- app_assoc. Qed.

(** A response has no tool use, or a first one. *)
Lemma first_tool_use items :
  no_tool_use items \/
  exists before id tool_name input after,
    items = before ++ ToolUse id tool_name input :: after /\ no_tool_use before.
Proof.
  induction items as [|block items IH].
  - left. constructor.
  - destruct (is_tool_use block) eqn:Hblock.
    + right. destruct block; try discriminate.
      exists [], id, tool_name, input, items. split; [reflexivity|constructor].
    + destruct IH as [Hnone|(before & id & tool_name & input & after & -> & Hbefore)].
      * left. now constructor.
      * right. exists (block :: before), id, tool_name, input, after.
        split; [reflexivity|now constructor].
Qed.

(** The loop over a response without tool use. *)
Lemma each_block_plain next iteration items said s :
  no_tool_use items ->
  each_block next iteration items said false s =
    Some (push_back (assistant_says (said ++ items)) (surface items s),
          Returned at_end).
Proof.
  intros Hnone. revert said s.
  induction Hnone as [|block items Hblock _ IH]; intros said s.
  - simpl. now rewrite app_nil_r, surface_nil.
  - destruct block; try discriminate; simpl;
      rewrite IH, <- app_assoc; simpl; try reflexivity.
    now rewrite surface_text.
Qed.

(** The loop over a response with a tool use: what follows the first one
    is not visited. *)
Lemma each_block_tool_use next iteration before id tool_name input after said flag s :
  no_tool_use before ->
  each_block next iteration (before ++ ToolUse id tool_name input :: after)
    said flag s =
    match fst (ToolRegistry.execute tool_name input (tool_registry (self s))) with
    | Raised e =>
        Some (print (out_tool_call tool_name input) (surface before s), Thrown e)
    | Normal result =>
        let s1 :=
          recorded (said ++ before ++ [ToolUse id tool_name input]) id result
            (print (out_tool_result result)
               (print (out_tool_call tool_name input) (surface before s))) in
        if (iteration <? max_iterations (self s))%Z
        then next (iteration + 1)%Z s1
        else Some (print (out_max_iterations (max_iterations (self s))) s1,
                   Returned at_limit)
    end.
Proof.
  intros Hnone. revert said s.
  induction Hnone as [|block items Hblock _ IH]; intros said s.
  - simpl.
    pose proof (execute_same_registry tool_name input (tool_registry (self s))) as Hreg.
    destruct (ToolRegistry.execute tool_name input (tool_registry (self s)))
      as [outcome registry]. simpl in *. subst registry.
    rewrite surface_nil.
    replace (update (set_registry (tool_registry (self s)))
               (print (out_tool_call tool_name input) s))
      with (print (out_tool_call tool_name input) s)
      by (symmetry; apply (same_registry (print (out_tool_call tool_name input) s))).
    destruct outcome; reflexivity.
  - destruct block; try discriminate; simpl; rewrite IH; simpl;
      rewrite <- ?surface_text, <- app_assoc; reflexivity.
Qed.

Section WithBackend.
Variable backend : Backend.

(** One unfolding of [run_iteration], with [call_api] inlined. *)
Lemma run_iteration_within_step fuel iteration s :
  run_iteration_within backend (S fuel) iteration s =
    if negb (status_code (answer backend iteration s) =? 200)%Z then
      Some (print (out_api_error (status_code (answer backend iteration s))
                                 (text (answer backend iteration s)))
                  (asked iteration s),
            Returned at_api_empty)
    else
      match parse (answer backend iteration s) with
      | None => Some (asked iteration s, Thrown parse_error)
      | Some response =>
          if empty response then Some (asked iteration s, Returned at_api_empty)
          else process_response (run_iteration_within backend fuel) response
                 iteration (asked iteration s)
      end.
Proof.
  simpl. unfold call_api.
  change (backend (posted (post _ _))) with (answer backend iteration s).
  destruct (negb (status_code (answer backend iteration s) =? 200)%Z); [reflexivity|].
  destruct (parse (answer backend iteration s)); reflexivity.
Qed.

(** The same for a good status and a body that parses. *)
Lemma run_iteration_within_parsed fuel iteration s response :
  status_code (answer backend iteration s) = 200%Z ->
  parse (answer backend iteration s) = Some response ->
  run_iteration_within backend (S fuel) iteration s =
    match response with
    | empty_document => Some (asked iteration s, Returned at_api_empty)
    | no_content =>
        Some (print out_invalid_response (asked iteration s), Returned at_invalid)
    | with_content items =>
        each_block (run_iteration_within backend fuel) iteration items [] false
          (asked iteration s)
    end.
Proof.
  intros Hstatus Hparse.
  rewrite run_iteration_within_step, Hstatus, Hparse.
  destruct response; reflexivity.
Qed.

Lemma run_iteration_within_sound fuel : forall iteration s s' e,
  run_iteration_within backend fuel iteration s = Some (s', e) ->
  iterates backend iteration s s' e.
Proof.
  induction fuel as [|fuel IH]; intros iteration s s' e; [discriminate|].
  destruct (Z.eq_dec (status_code (answer backend iteration s)) 200)
    as [Hstatus|Hstatus].
  2:{ rewrite run_iteration_within_step.
      apply Z.eqb_neq in Hstatus. rewrite Hstatus. apply Z.eqb_neq in Hstatus.
      intros [= <- <-]. auto with loop. }
  destruct (parse (answer backend iteration s)) as [response|] eqn:Hparse.
  2:{ rewrite run_iteration_within_step, Hstatus, Hparse.
      intros [= <- <-]. auto with loop. }
  rewrite (run_iteration_within_parsed _ _ _ _ Hstatus Hparse).
  destruct response as [| |items]; try (intros [= <- <-]; auto with loop).
  destruct (first_tool_use items)
    as [Hnone|(before & id & tool_name & input & after & -> & Hbefore)].
  - rewrite each_block_plain by exact Hnone.
    intros [= <- <-]. auto with loop.
  - rewrite each_block_tool_use by exact Hbefore. simpl.
    destruct (fst (ToolRegistry.execute tool_name input (tool_registry (self s))))
      as [result|e'] eqn:Hexec.
    + destruct (iteration <? max_iterations (self s))%Z eqn:Hlt.
      * intros Hrest. apply IH in Hrest. apply Z.ltb_lt in Hlt.
        eauto with loop.
      * intros [= <- <-]. apply Z.ltb_ge in Hlt. eauto with loop.
    + intros [= <- <-]. eauto with loop.
Qed.

Lemma max_iterations_dispatched before id tool_name input result iteration s :
  max_iterations (self (dispatched before id tool_name input result
                          (asked iteration s))) = max_iterations (self s).
Proof. reflexivity. Qed.

Lemma iterates_complete iteration s s' e :
  iterates backend iteration s s' e ->
  run_iteration backend iteration s = Some (s', e).
Proof.
  unfold run_iteration, depth.
  iterates_induction.
  - rewrite run_iteration_within_step.
    apply Z.eqb_neq in Hstatus. now rewrite Hstatus.
  - now rewrite run_iteration_within_step, Hstatus, Hparse.
  - now rewrite (run_iteration_within_parsed _ _ _ _ Hstatus Hparse).
  - now rewrite (run_iteration_within_parsed _ _ _ _ Hstatus Hparse).
  - rewrite (run_iteration_within_parsed _ _ _ _ Hstatus Hparse).
    now apply each_block_plain.
  - rewrite (run_iteration_within_parsed _ _ _ _ Hstatus Hparse).
    rewrite each_block_tool_use by exact Hbefore. simpl. now rewrite Hexec.
  - rewrite (run_iteration_within_parsed _ _ _ _ Hstatus Hparse).
    rewrite each_block_tool_use by exact Hbefore. simpl. rewrite Hexec.
    apply Z.ltb_ge in Hmax. now rewrite Hmax.
  - rewrite max_iterations_dispatched in IH.
    replace (Z.to_nat (max_iterations (self s) - iteration))
      with (S (Z.to_nat (max_iterations (self s) - (iteration + 1)))) by lia.
    rewrite (run_iteration_within_parsed _ _ _ _ Hstatus Hparse).
    rewrite each_block_tool_use by exact Hbefore. simpl. rewrite Hexec.
    apply Z.ltb_lt in Hlt. rewrite Hlt. exact IH.
Qed.

(** [run_iteration] within its own depth is the relation. *)
Lemma run_iteration_iterates iteration s s' e :
  run_iteration backend iteration s = Some (s', e) <->
  iterates backend iteration s s' e.
Proof.
  split; [apply run_iteration_within_sound | apply iterates_complete].
Qed.

(** Every call of [run_iteration] comes to an end: each further call has
    one iteration less to go. *)
Lemma iterates_total : forall (n : nat) iteration s,
  (Z.to_nat (max_iterations (self s) - iteration) <= n)%nat ->
  exists s' e, iterates backend iteration s s' e.
Proof.
  induction n as [|n IH]; intros iteration s Hn.
  all: destruct (Z.eq_dec (status_code (answer backend iteration s)) 200)
         as [Hstatus|Hstatus]; [|eauto with loop].
  all: destruct (parse (answer backend iteration s)) as [[| |items]|] eqn:Hparse;
         [eauto with loop | eauto with loop | | eauto with loop].
  all: destruct (first_tool_use items)
         as [Hnone|(before & id & tool_name & input & after & -> & Hbefore)];
         [eauto with loop|].
  all: destruct (fst (ToolRegistry.execute tool_name input (tool_registry (self s))))
         as [result|e'] eqn:Hexec; [|eauto with loop].
  all: destruct (Z.lt_ge_cases iteration (max_iterations (self s))) as [Hlt|Hge];
         [|eauto with loop].
  - lia.
  - destruct (IH (iteration + 1)%Z
                (dispatched before id tool_name input result (asked iteration s)))
      as (s' & e & Hrest).
    { rewrite max_iterations_dispatched. lia. }
    eauto with loop.
Qed.

Lemma run_iteration_total iteration s :
  exists s' e, run_iteration backend iteration s = Some (s', e).
Proof.
  destruct (iterates_total _ iteration s (Nat.le_refl _)) as (s' & e & Hrun).
  exists s', e. now apply iterates_complete.
Qed.
End WithBackend.
End LoopFacts.

(** * The history *)

Section HistoryFacts.
Import Agent AgentSpec.
Implicit Types (s : State) (h : list Message) (items before : list ContentBlock).

Lemma history_dispatched before id tool_name input result s :
  history (dispatched before id tool_name input result s) =
    history s ++ [assistant_says (before ++ [ToolUse id tool_name input]);
                  tool_reply id result].
Proof.
  unfold dispatched, recorded, history. simpl. now rewrite <- app_assoc.
Qed.

Lemma tool_use_ids_none items :
  no_tool_use items -> tool_use_ids (assistant_says items) = [].
Proof.
  unfold tool_use_ids. simpl.
  induction 1 as [|block items Hblock _ IH]; [reflexivity|].
  destruct block; try discriminate; exact IH.
Qed.

Lemma tool_use_ids_last before id tool_name input :
  no_tool_use before ->
  tool_use_ids (assistant_says (before ++ [ToolUse id tool_name input])) = [id].
Proof.
  intros Hbefore. apply tool_use_ids_none in Hbefore.
  unfold tool_use_ids, assistant_says, items_of in *. cbn [content] in *.
  now rewrite flat_map_app, Hbefore.
Qed.

Lemma In_tool_use_ids m id tool_name input :
  In (ToolUse id tool_name input) (items_of m) -> In id (tool_use_ids m).
Proof.
  intros Hin. unfold tool_use_ids. apply in_flat_map.
  exists (ToolUse id tool_name input). split; [exact Hin|now left].
Qed.

Lemma replied_app m rest more : replied m rest -> replied m (rest ++ more).
Proof.
  intros Hm Hrole id Hid.
  destruct (Hm Hrole id Hid) as (reply & rest' & output & -> & Huser & Hresult).
  now exists reply, (rest' ++ more), output.
Qed.

Lemma paired_app h more : paired h -> paired more -> paired (h ++ more).
Proof.
  induction h as [|m rest IH]; simpl; [tauto|].
  intros [Hm Hrest] Hmore. split; [now apply replied_app|now apply IH].
Qed.

Lemma paired_plain items : no_tool_use items -> paired [assistant_says items].
Proof.
  intros Hnone. split; [|exact I].
  intros _ id Hid. rewrite (tool_use_ids_none _ Hnone) in Hid. destruct Hid.
Qed.

Lemma paired_tool_turn before id tool_name input result :
  no_tool_use before ->
  paired [assistant_says (before ++ [ToolUse id tool_name input]);
          tool_reply id result].
Proof.
  intros Hbefore. split; [|split; [discriminate|exact I]].
  intros _ id' Hid. rewrite (tool_use_ids_last _ _ _ _ Hbefore) in Hid.
  destruct Hid as [<-|[]].
  now exists (tool_reply id result), [], result.
Qed.

Lemma paired_user user_input : paired [user_says user_input].
Proof. split; [discriminate|exact I]. Qed.

Lemma paired_answered h : paired h -> answered h.
Proof.
  intros Hpaired i. revert h Hpaired.
  induction i as [|i IH]; intros [|m0 rest] Hpaired m id tool_name input Hnth Hrole Hin;
    try discriminate; destruct Hpaired as [Hm0 Hrest].
  - injection Hnth as ->.
    destruct (Hm0 Hrole id (In_tool_use_ids _ _ _ _ Hin))
      as (reply & rest' & output & -> & Huser & Hresult).
    now exists reply, output.
  - exact (IH rest Hrest m id tool_name input Hnth Hrole Hin).
Qed.

(** A call of [run_iteration] only appends to the history, and what it
    appends is paired. *)
Lemma iterates_history backend iteration s s' e :
  iterates backend iteration s s' e ->
  exists appended, history s' = history s ++ appended /\ paired appended.
Proof.
  iterates_induction.
  1-4, 6: exists []; split; [symmetry; apply app_nil_r|exact I].
  - exists [assistant_says items]. split; [reflexivity|now apply paired_plain].
  - eexists. split; [apply (history_dispatched _ _ _ _ _ (asked iteration s))|].
    now apply paired_tool_turn.
  - destruct IH as (appended & Hhistory & Hpaired).
    rewrite history_dispatched, <- app_assoc in Hhistory.
    eexists. split; [exact Hhistory|].
    apply (paired_app [_; _]); [now apply paired_tool_turn|exact Hpaired].
Qed.

Lemma run_history backend user_input s s' e :
  run backend user_input s = Some (s', e) ->
  exists appended,
    history s' = history s ++ user_says user_input :: appended /\
    paired appended.
Proof.
  unfold run.
  destruct (run_iteration backend 1 _) as [[s1 [site|e1]]|] eqn:Hrun;
    [| |discriminate]; intros [= <- <-];
    apply run_iteration_iterates, iterates_history in Hrun;
    destruct Hrun as (appended & Hhistory & Hpaired);
    exists appended; (split; [|exact Hpaired]).
  - change (history (print out_rule s1)) with (history s1).
    rewrite Hhistory. unfold history. simpl. now rewrite <- app_assoc.
  - rewrite Hhistory. unfold history. simpl. now rewrite <- app_assoc.
Qed.

Lemma reachable_paired s : reachable s -> paired (history s).
Proof.
  induction 1 as [key model_name max_iter
                 |s tool _ IH
                 |backend s user_input s' e _ IH Hrun
                 |s _ IH
                 |s _ IH]; try exact IH; try exact I.
  apply run_history in Hrun. destruct Hrun as (appended & -> & Hpaired).
  apply paired_app; [exact IH|].
  apply (paired_app [_]); [apply paired_user|exact Hpaired].
Qed.

(** C3: in every state that a session reaches by registering tools,
    running, resetting and printing, each tool use of an assistant message
    is followed by a user message whose one tool result carries its id. *)
Theorem tool_uses_answered (s : State) :
  reachable s -> answered (history s).
Proof.
  intros Hreach. apply paired_answered. now apply reachable_paired.
Qed.

Lemma tool_uses_answered_witness :
  reachable (after_run tool_use_then_text "say hi" (session 10)) /\
  answered (history (after_run tool_use_then_text "say hi" (session 10))).
Proof.
  assert (Hreach : reachable (after_run tool_use_then_text "say hi" (session 10))).
  { apply (reach_run tool_use_then_text (session 10) "say hi" _ (Returned at_end)).
    - repeat constructor.
    - vm_compute. reflexivity. }
  split; [exact Hreach|].
  exact (tool_uses_answered _ Hreach).
Defined.

(** ** A tool use on every turn *)






Section Responses.
Variable backend : Backend.



End Responses.



End HistoryFacts.

(** * One response, one dispatch *)

Section DispatchClaims.
Import Agent AgentSpec.

(** C1, as the program has it.  For a response with a tool use,
    [process_response] visits the blocks up to the first tool use and no
    further: it writes the texts before it, calls [execute] once, for that
    tool use, pushes an assistant message holding the blocks up to and
    including it and a user message with the result, and goes on to the next
    iteration or stops at the bound.  The blocks after the first tool use
    ([after], later tool uses among them) are neither executed nor put into
    the history: nothing on the right-hand sides depends on them. *)
Theorem first_tool_use_alone
    (next : Z -> State -> option (State * Exit))
    (before : list ContentBlock) (id tool_name : string) (input : json)
    (after : list ContentBlock) (iteration : Z) (s : State) :
  no_tool_use before ->
  process_response next
    (with_content (before ++ ToolUse id tool_name input :: after)) iteration s =
    match fst (ToolRegistry.execute tool_name input (tool_registry (self s))) with
    | Raised e =>
        Some (print (out_tool_call tool_name input) (surface before s), Thrown e)
    | Normal result =>
        if (iteration <? max_iterations (self s))%Z
        then next (iteration + 1)%Z (dispatched before id tool_name input result s)
        else Some (print (out_max_iterations (max_iterations (self s)))
                     (dispatched before id tool_name input result s),
                   Returned at_limit)
    end /\
  (forall result,
     history (dispatched before id tool_name input result s) =
       history s ++ [assistant_says (before ++ [ToolUse id tool_name input]);
                     tool_reply id result]) /\
  (forall result,
     console (dispatched before id tool_name input result s) =
       console s ++ texts before ++
         [out_tool_call tool_name input; out_tool_result result]).
Proof.
  intros Hbefore. split; [|split].
  - unfold process_response. simpl.
    rewrite each_block_tool_use by exact Hbefore. reflexivity.
  - intros result. apply history_dispatched.
  - intros result. unfold dispatched, recorded, surface. simpl.
    now rewrite <- !app_assoc.
Qed.

Lemma first_tool_use_alone_witness :
  no_tool_use [Text "first"] /\
  process_response (fun _ s => Some (s, Returned at_end))
    (with_content ([Text "first"] ++ ToolUse "toolu_1" "echo" hi
                     :: [ToolUse "toolu_2" "clock" (j_object [])]))
    1 (session 1) =
    Some (print (out_max_iterations 1)
            (dispatched [Text "first"] "toolu_1" "echo" hi "hi" (session 1)),
          Returned at_limit) /\
  history (dispatched [Text "first"] "toolu_1" "echo" hi "hi" (session 1)) =
    [assistant_says [Text "first"; ToolUse "toolu_1" "echo" hi];
     tool_reply "toolu_1" "hi"].
Proof.
  assert (Hbefore : no_tool_use [Text "first"]).
  { constructor; [reflexivity|constructor]. }
  split; [exact Hbefore|].
  destruct (first_tool_use_alone (fun _ s => Some (s, Returned at_end))
              [Text "first"] "toolu_1" "echo" hi
              [ToolUse "toolu_2" "clock" (j_object [])] 1 (session 1) Hbefore)
    as (Hresponse & Hhistory & _).
  split; [exact Hresponse | exact (Hhistory "hi")].
Defined.

(** C1 fails as stated: of a response with the blocks tool use, text, tool
    use, text, the history keeps the first tool use and its result; the
    three blocks after it are in no message. *)
Lemma later_blocks_not_retained :
  option_map (fun r => (history (fst r), snd r))
             (run two_tool_uses "go" (session 1)) =
    Some ([user_says "go";
           assistant_says [ToolUse "toolu_1" "echo" hi];
           tool_reply "toolu_1" "hi"],
          Returned at_limit) /\
  (forall m, In m (history (after_run two_tool_uses "go" (session 1))) ->
             ~ In (ToolUse "toolu_2" "clock" (j_object [])) (items_of m)).
Proof.
  split.
  - vm_compute. reflexivity.
  - intros m Hm. vm_compute in Hm.
    destruct Hm as [<-|[<-|[<-|[]]]]; simpl; intros Hin.
    + exact Hin.
    + destruct Hin as [Hin|[]]. discriminate.
    + destruct Hin as [Hin|[]]. discriminate.
Qed.
End DispatchClaims.

(** * What the caller sees *)

Section ConsoleFacts.
Import Agent AgentSpec.







End ConsoleFacts.

(** * Failed backend calls, reset *)

Section SessionClaims.
Import Agent AgentSpec.

(** Every run comes to an end. *)
Lemma run_total backend user_input s :
  exists s' e, run backend user_input s = Some (s', e).
Proof.
  unfold run.
  destruct (run_iteration_total backend 1
              (push_back (user_says user_input) (print (out_user user_input) s)))
    as (s1 & [site|e] & Hrun); fold (user_says user_input); rewrite Hrun; eauto.
Qed.

(** The scenario of the specification: [echo] is asked for once, then the
    model answers in text.  Two requests, four messages, [true]. *)
Example echo_scenario :
  option_map (fun r => (length (posted (fst r)), history (fst r), snd r))
             (run tool_use_then_text "say hi" (session 10)) =
    Some (2%nat,
          [user_says "say hi";
           assistant_says [ToolUse "toolu_1" "echo" hi];
           tool_reply "toolu_1" "hi";
           assistant_says [Text "hi"]],
          Returned at_end).
Proof. vm_compute. reflexivity. Qed.

(** A first call answered with a status other than 200, or with a body
    that parses to a document that is empty or has no content: the run
    returns, [run_iteration] gives [false], and the agent is as before but
    for the user message. *)
Lemma failed_call_returns backend user_input s :
  let s0 := push_back (user_says user_input) (print (out_user user_input) s) in
  status_code (answer backend 1 s0) <> 200%Z \/
  parse (answer backend 1 s0) = Some empty_document \/
  parse (answer backend 1 s0) = Some no_content ->
  exists s' site,
    run backend user_input s = Some (s', Returned site) /\
    value site = false /\
    self s' = set_history (history s ++ [user_says user_input]) (self s) /\
    length (posted s') = S (length (posted s)).
Proof.
  intros s0 Hfailed. unfold run. fold (user_says user_input). fold s0.
  destruct (Z.eq_dec (status_code (answer backend 1 s0)) 200) as [Hstatus|Hstatus].
  - destruct Hfailed as [Hbad|[Hparse|Hparse]]; [contradiction| |].
    + rewrite (iterates_complete _ _ _ _ _ (it_empty_document _ _ _ Hstatus Hparse)).
      eexists _, _. split; [reflexivity|]. split; [reflexivity|].
      split; [reflexivity|]. simpl. rewrite length_app. simpl. lia.
    + rewrite (iterates_complete _ _ _ _ _ (it_no_content _ _ _ Hstatus Hparse)).
      eexists _, _. split; [reflexivity|]. split; [reflexivity|].
      split; [reflexivity|]. simpl. rewrite length_app. simpl. lia.
  - rewrite (iterates_complete _ _ _ _ _ (it_bad_status _ _ _ Hstatus)).
    eexists _, _. split; [reflexivity|]. split; [reflexivity|].
    split; [reflexivity|]. simpl. rewrite length_app. simpl. lia.
Qed.

(** A first call answered with status 200 and a body that [json::parse]
    rejects: the exception leaves [run]. *)
Lemma unparseable_body_throws backend user_input s :
  let s0 := push_back (user_says user_input) (print (out_user user_input) s) in
  status_code (answer backend 1 s0) = 200%Z ->
  parse (answer backend 1 s0) = None ->
  exists s',
    run backend user_input s = Some (s', Thrown parse_error) /\
    self s' = set_history (history s ++ [user_says user_input]) (self s).
Proof.
  intros s0 Hstatus Hparse. unfold run. fold (user_says user_input). fold s0.
  rewrite (iterates_complete _ _ _ _ _ (it_unparseable _ _ _ Hstatus Hparse)).
  eexists. split; reflexivity.
Qed.

(** C6 at the failing input.  The backend answers with status 200 and a
    body that is not JSON: [json::parse] throws, nothing in [call_api],
    [run_iteration], [run] or [main] catches, and the process ends with the
    first line; the second line is never run.  With status 529 instead the
    first run returns and the second line is run. *)
Theorem unparseable_body_ends_process :
  option_map standing (main_loop garbled ["hello"; "again"] (session 10)) =
    Some (is_terminated parse_error, 1%nat, [user_says "hello"]) /\
  option_map standing (main_loop overloaded ["hello"; "again"] (session 10)) =
    Some (is_reading, 2%nat, [user_says "hello"; user_says "again"]).
Proof.
  split.
  - vm_compute. reflexivity.
  - vm_compute. reflexivity.
Qed.

(** C9: [reset] twice leaves the agent that [reset] once leaves; after it
    the history is empty whatever it was; the registry, the key, the model
    and the bound are untouched.  (Each call writes its line to the
    console.) *)
Theorem reset_idempotent (s : State) :
  self (reset (reset s)) = self (reset s) /\
  history (reset s) = [] /\
  tool_registry (self (reset s)) = tool_registry (self s) /\
  api_key (self (reset s)) = api_key (self s) /\
  model (self (reset s)) = model (self s) /\
  max_iterations (self (reset s)) = max_iterations (self s) /\
  posted (reset s) = posted s.
Proof.
  unfold reset, history, update, print, set_history. simpl.
  repeat split.
Qed.
End SessionClaims.

(** * Whole runs *)

Section RunFacts.
Import Agent AgentSpec RunSpec.

(** A call of [run_iteration] changes the history of the agent and nothing
    else of it. *)
Lemma iterates_frame backend iteration s s' e :
  iterates backend iteration s s' e ->
  tool_registry (self s') = tool_registry (self s) /\
  api_key (self s') = api_key (self s) /\
  model (self s') = model (self s) /\
  max_iterations (self s') = max_iterations (self s).
Proof.
  iterates_induction; try (repeat split; reflexivity).
  exact IH.
Qed.

(** The shape of what a call of [run_iteration] appends, and the number of
    its requests. *)
Lemma iterates_shape backend iteration s s' e :
  iterates backend iteration s s' e ->
  exists n turns closing,
    tool_turns (tool_registry (self s)) n turns /\ closes e closing /\
    history s' = history s ++ turns ++ closing /\
    length (posted s') = (length (posted s) + (n + open_calls e))%nat /\
    (n + open_calls e <=
       Z.to_nat (Z.max 1 (max_iterations (self s) - iteration + 1)))%nat.
Proof.
  iterates_induction.
  1-4: exists 0%nat, [], []; repeat split; try constructor;
       try (symmetry; apply app_nil_r);
       simpl; rewrite ?length_app; simpl; lia.
  - exists 0%nat, [], [assistant_says items].
    split; [constructor|]. split; [now exists items|].
    split; [reflexivity|]. simpl. rewrite length_app. simpl. lia.
  - exists 0%nat, [], []. split; [constructor|].
    assert (e = foreign_exception) as ->.
    { unfold ToolRegistry.execute in Hexec.
      destruct (StdMap.find tool_name _) as [tool|]; [|discriminate].
      destruct (executor tool input); simpl in Hexec; congruence. }
    split; [reflexivity|]. split; [symmetry; apply app_nil_r|].
    simpl. rewrite length_app. simpl. lia.
  - exists 1%nat, [assistant_says (before ++ [ToolUse id tool_name input]);
                   tool_reply id result], [].
    split; [constructor; [exact Hbefore|exact Hexec|constructor]|].
    split; [reflexivity|]. split.
    + rewrite app_nil_r. apply (history_dispatched _ _ _ _ _ (asked iteration s)).
    + simpl. rewrite length_app. simpl. lia.
  - destruct IH as (n & turns & closing & Hpairs & Hcloses & Hhistory & Hposted & Hbound).
    rewrite max_iterations_dispatched in Hbound.
    exists (S n), (assistant_says (before ++ [ToolUse id tool_name input])
                     :: tool_reply id result :: turns), closing.
    split; [now constructor|]. split; [exact Hcloses|]. split.
    + rewrite Hhistory, history_dispatched, <- app_assoc. reflexivity.
    + rewrite Hposted. simpl. rewrite length_app. simpl. lia.
Qed.


(** [run] in terms of the relation. *)
Lemma run_iterates backend user_input s :
  exists s1 e,
    iterates backend 1
      (push_back (user_says user_input) (print (out_user user_input) s)) s1 e /\
    run backend user_input s =
      Some (match e with Returned _ => print out_rule s1 | Thrown _ => s1 end, e).
Proof.
  destruct (run_iteration_total backend 1
              (push_back (user_says user_input) (print (out_user user_input) s)))
    as (s1 & e & Hrun).
  exists s1, e. split; [now apply run_iteration_iterates|].
  unfold run. fold (user_says user_input). rewrite Hrun. now destruct e.
Qed.

(** X1: a run ends, and of the agent it changes the history only, by
    appending: the registry, the key, the model and the bound are what they
    were, and the messages that were there stay in place, followed by the
    new user message. *)
Theorem run_changes_history_only (backend : Backend) (user_input : string)
    (s : State) :
  exists s' e appended,
    run backend user_input s = Some (s', e) /\
    tool_registry (self s') = tool_registry (self s) /\
    api_key (self s') = api_key (self s) /\
    model (self s') = model (self s) /\
    max_iterations (self s') = max_iterations (self s) /\
    history s' = history s ++ user_says user_input :: appended.
Proof.
  destruct (run_iterates backend user_input s) as (s1 & e & Hrun & ->).
  destruct (iterates_frame _ _ _ _ _ Hrun) as (Hregistry & Hkey & Hmodel & Hmax).
  destruct (iterates_history _ _ _ _ _ Hrun) as (appended & Hhistory & _).
  exists (match e with Returned _ => print out_rule s1 | Thrown _ => s1 end), e,
         appended.
  split; [reflexivity|].
  assert (Hself : self (match e with Returned _ => print out_rule s1
                                | Thrown _ => s1 end) = self s1)
    by now destruct e.
  unfold history. rewrite Hself.
  repeat split; try assumption.
  fold (history s1). rewrite Hhistory. unfold history. simpl.
  now rewrite <- app_assoc.
Qed.




End RunFacts.

(** * The registry as a map *)

Section RegistryAlgebra.
Import ToolRegistry ToolRegistrySpec.

Lemma find_below {V} (k : string) (m : StdMap.t V) :
  Forall (StdMap.key_lt k) (StdMap.keys m) -> StdMap.find k m = None.
Proof.
  intros Hall. apply find_None_keys. intros Hin.
  rewrite Forall_forall in Hall. exact (key_lt_irrefl k (Hall _ Hin)).
Qed.

Lemma find_before {V} (k k0 : string) (m : StdMap.t V) :
  StdMap.key_lt k k0 -> Forall (StdMap.key_lt k0) (StdMap.keys m) ->
  StdMap.find k m = None.
Proof.
  intros Hlt Hall. apply find_below.
  eapply Forall_impl; [|exact Hall]. intros k1 H1.
  now apply key_lt_trans with k0.
Qed.

(** Two maps in key order that answer every [find] alike are the same
    list of bindings. *)
Lemma ordered_ext {V} (m1 m2 : StdMap.t V) :
  StdMap.ordered m1 -> StdMap.ordered m2 ->
  (forall k, StdMap.find k m1 = StdMap.find k m2) -> m1 = m2.
Proof.
  unfold StdMap.ordered. revert m2.
  induction m1 as [|[k1 v1] t1 IH]; intros [|[k2 v2] t2] H1 H2 Hfind.
  - reflexivity.
  - specialize (Hfind k2). simpl in Hfind. now rewrite String.eqb_refl in Hfind.
  - specialize (Hfind k1). simpl in Hfind. now rewrite String.eqb_refl in Hfind.
  - simpl in H1, H2.
    inversion H1 as [|? ? Ht1 Hall1]; inversion H2 as [|? ? Ht2 Hall2]; subst.
    pose proof (Hfind k1) as Hk1. pose proof (Hfind k2) as Hk2.
    simpl in Hk1, Hk2. rewrite String.eqb_refl in Hk1, Hk2.
    destruct (String.compare k1 k2) eqn:Hcompare.
    + apply compare_eq in Hcompare. subst k2.
      rewrite String.eqb_refl in Hk1. injection Hk1 as <-.
      f_equal. apply IH; [exact Ht1|exact Ht2|].
      intros k. destruct (String.eqb k k1) eqn:Hk.
      * apply String.eqb_eq in Hk. subst k.
        now rewrite (find_below k1 t1), (find_below k1 t2).
      * specialize (Hfind k). simpl in Hfind. now rewrite Hk in Hfind.
    + apply compare_lt in Hcompare.
      destruct (String.eqb k1 k2) eqn:Hk.
      * apply String.eqb_eq in Hk. subst k2. now apply key_lt_irrefl in Hcompare.
      * now rewrite (find_before k1 k2 t2) in Hk1.
    + apply compare_gt in Hcompare.
      destruct (String.eqb k2 k1) eqn:Hk.
      * apply String.eqb_eq in Hk. subst k2. now apply key_lt_irrefl in Hcompare.
      * now rewrite (find_before k2 k1 t1) in Hk2.
Qed.

Lemma same_name_same_tool (calls : list Tool) (a b : Tool) :
  NoDup (map name calls) -> In a calls -> In b calls -> name a = name b -> a = b.
Proof.
  induction calls as [|tool calls IH]; simpl; [intros _ []|].
  intros Hnodup Ha Hb Hname. inversion Hnodup as [|? ? Hfresh Hrest]; subst.
  destruct Ha as [->|Ha], Hb as [->|Hb].
  - reflexivity.
  - exfalso. apply Hfresh. rewrite Hname. now apply in_map.
  - exfalso. apply Hfresh. rewrite <- Hname. now apply in_map.
  - now apply IH.
Qed.

Lemma latest_spec k calls tool :
  NoDup (map name calls) ->
  latest k calls = Some tool <-> In tool calls /\ name tool = k.
Proof.
  intros Hnodup. unfold latest. split.
  - intros Hfound. apply find_some in Hfound. destruct Hfound as [Hin Hname].
    apply in_rev in Hin. apply String.eqb_eq in Hname. now split.
  - intros [Hin <-].
    destruct (find (fun t => String.eqb (name tool) (name t)) (rev calls))
      as [other|] eqn:Hfound.
    + apply find_some in Hfound. destruct Hfound as [Hother Hname].
      apply in_rev in Hother. apply String.eqb_eq in Hname.
      f_equal. symmetry. now apply (same_name_same_tool calls).
    + apply in_rev in Hin. apply (find_none _ _ Hfound tool) in Hin.
      now rewrite String.eqb_refl in Hin.
Qed.

Lemma latest_permutation k calls calls' :
  Permutation calls calls' -> NoDup (map name calls) ->
  latest k calls = latest k calls'.
Proof.
  intros Hperm Hnodup.
  assert (Hnodup' : NoDup (map name calls')).
  { eapply Permutation_NoDup; [|exact Hnodup]. now apply Permutation_map. }
  destruct (latest k calls) as [tool|] eqn:Hthere.
  - apply latest_spec in Hthere as [Hin Hname]; [|exact Hnodup].
    symmetry. apply latest_spec; [exact Hnodup'|].
    split; [|exact Hname]. now apply (Permutation_in _ Hperm).
  - destruct (latest k calls') as [tool|] eqn:Hhere; [|reflexivity].
    apply latest_spec in Hhere as [Hin Hname]; [|exact Hnodup'].
    assert (Hback : latest k calls = Some tool).
    { apply latest_spec; [exact Hnodup|]. split; [|exact Hname].
      apply Permutation_sym in Hperm. now apply (Permutation_in _ Hperm). }
    congruence.
Qed.

Lemma registered_ext calls calls' :
  (forall k, latest k calls = latest k calls') ->
  registered calls = registered calls'.
Proof.
  intros Hlatest.
  destruct (well_formed_registered calls) as [Hord _].
  destruct (well_formed_registered calls') as [Hord' _].
  destruct (registered calls) as [m] eqn:Hm.
  destruct (registered calls') as [m'] eqn:Hm'.
  f_equal. apply ordered_ext; [exact Hord|exact Hord'|].
  intros k. change m with (tools {| tools := m |}).
  change m' with (tools {| tools := m' |}).
  rewrite <- Hm, <- Hm', !find_registered. apply Hlatest.
Qed.

(** X6: two sequences of [register_tool] calls leave the same registry
    exactly when they agree, for every name, on the tool registered last
    under it: earlier registrations under a name and the order of the names
    leave no trace. *)
Theorem last_registration_decides (calls calls' : list Tool) :
  registered calls = registered calls' <->
  (forall k, latest k calls = latest k calls').
Proof.
  split.
  - intros Hsame k. now rewrite <- !find_registered, Hsame.
  - apply registered_ext.
Qed.

(** X7: tools of different names can be registered in any order: the
    registry, and with it the export and every [execute], is the same. *)
Theorem registration_order_irrelevant (calls calls' : list Tool) :
  Permutation calls calls' ->
  NoDup (map name calls) ->
  registered calls = registered calls'.
Proof.
  intros Hperm Hnodup. apply registered_ext.
  intros k. now apply latest_permutation.
Qed.

Lemma registration_order_irrelevant_witness :
  Permutation [echo; clock; boom] [boom; echo; clock] /\
  NoDup (map name [echo; clock; boom]) /\
  registered [echo; clock; boom] = registered [boom; echo; clock].
Proof.
  assert (Hperm : Permutation [echo; clock; boom] [boom; echo; clock]).
  { apply Permutation_sym. apply (Permutation_cons_append [echo; clock] boom). }
  assert (Hnodup : NoDup (map name [echo; clock; boom])).
  { simpl. repeat constructor; simpl; intuition discriminate. }
  split; [exact Hperm|]. split; [exact Hnodup|].
  exact (registration_order_irrelevant _ _ Hperm Hnodup).
Defined.

(** X8: registering a tool does not change what [execute] does under any
    other name. *)
Theorem register_keeps_other_tools (tool : Tool) (r : ToolRegistry.t)
    (k : string) (params : json) :
  k <> name tool ->
  fst (execute k params (register_tool tool r)) = fst (execute k params r).
Proof.
  intros Hother. unfold execute, register_tool. simpl.
  rewrite find_assign. apply String.eqb_neq in Hother. rewrite Hother.
  destruct (StdMap.find k (tools r)) as [found|]; [|reflexivity].
  destruct (executor found params); reflexivity.
Qed.

Lemma register_keeps_other_tools_witness :
  "echo" <> name clock /\
  fst (execute "echo" hi (register_tool clock (registered [echo]))) =
    fst (execute "echo" hi (registered [echo])).
Proof.
  assert (Hother : "echo" <> name clock) by discriminate.
  split; [exact Hother|].
  exact (register_keeps_other_tools clock (registered [echo]) "echo" hi Hother).
Defined.
End RegistryAlgebra.

(** * The command loop *)

Section MainLoopFacts.
Import Agent AgentSpec RunSpec.

Lemma main_loop_line backend input lines s :
  main_loop backend (input :: lines) s =
    if String.eqb input "quit" || String.eqb input "exit" then
      Some (exited (print out_goodbye s))
    else if String.eqb input "reset" then main_loop backend lines (reset s)
    else if String.eqb input "history" then
      main_loop backend lines (print_history s)
    else if String.eqb input "" then main_loop backend lines s
    else
      match run backend input s with
      | Some (s1, Returned _) => main_loop backend lines s1
      | Some (s1, Thrown e) => Some (terminated s1 e)
      | None => None
      end.
Proof. reflexivity. Qed.


Lemma tool_turns_sendable r n turns :
  tool_turns r n turns -> Forall sendable turns.
Proof. induction 1; repeat constructor; assumption. Qed.

Lemma closes_sendable e closing : closes e closing -> Forall sendable closing.
Proof.
  destruct e as [[| | |]|e]; simpl; try (intros ->; constructor).
  intros (items & _ & ->). repeat constructor.
Qed.

Lemma run_sendable backend input s s' e :
  is_command input = false ->
  Forall sendable (history s) ->
  run backend input s = Some (s', e) ->
  Forall sendable (history s').
Proof.
  intros Hinput Hhistory Hrun.
  destruct (run_iterates backend input s) as (s1 & e1 & Hiter & Hrun1).
  rewrite Hrun1 in Hrun. injection Hrun as <- <-.
  destruct (iterates_shape _ _ _ _ _ Hiter)
    as (n & turns & closing & Hpairs & Hcloses & Hshape & _).
  assert (Hsame : history (match e1 with Returned _ => print out_rule s1
                                    | Thrown _ => s1 end) = history s1)
    by now destruct e1.
  rewrite Hsame, Hshape. unfold history. simpl.
  rewrite !Forall_app. repeat split.
  - exact Hhistory.
  - repeat constructor. exact Hinput.
  - now apply tool_turns_sendable in Hpairs.
  - now apply closes_sendable in Hcloses.
Qed.

Lemma not_command input :
  (String.eqb input "quit" || String.eqb input "exit") = false ->
  String.eqb input "reset" = false ->
  String.eqb input "history" = false ->
  String.eqb input "" = false ->
  is_command input = false.
Proof.
  unfold is_command. intros Hquit -> -> ->. rewrite Hquit. reflexivity.
Qed.

(** X10: [main] never sends the model one of its own commands: if no user
    message of the history is [quit], [exit], [reset], [history] or empty
    before the lines are read, none is after, whatever the lines and the
    backend are. *)
Theorem commands_never_sent (backend : Backend) (lines : list string) (s : State) :
  Forall sendable (history s) ->
  exists p, main_loop backend lines s = Some p /\
            Forall sendable (history (state_of p)).
Proof.
  revert s. induction lines as [|input lines IH]; intros s Hhistory.
  - exists (reading s). now split.
  - rewrite main_loop_line.
    destruct (String.eqb input "quit" || String.eqb input "exit") eqn:Hquit.
    { eexists. split; [reflexivity|exact Hhistory]. }
    destruct (String.eqb input "reset") eqn:Hreset.
    { apply IH. constructor. }
    destruct (String.eqb input "history") eqn:Hshow.
    { apply IH. exact Hhistory. }
    destruct (String.eqb input "") eqn:Hempty.
    { apply IH. exact Hhistory. }
    destruct (run_total backend input s) as (s1 & e & Hrun). rewrite Hrun.
    pose proof (run_sendable _ _ _ _ _
                  (not_command _ Hquit Hreset Hshow Hempty) Hhistory Hrun) as Hafter.
    destruct e as [site|e].
    + now apply IH.
    + eexists. split; [reflexivity|exact Hafter].
Qed.

Lemma commands_never_sent_witness :
  Forall sendable (history (session 10)) /\
  exists p,
    main_loop tool_use_then_text ["say hi"; ""; "history"; "quit"; "more"]
      (session 10) = Some p /\
    Forall sendable (history (state_of p)).
Proof.
  assert (Hhistory : Forall sendable (history (session 10))) by constructor.
  split; [exact Hhistory|].
  exact (commands_never_sent tool_use_then_text
           ["say hi"; ""; "history"; "quit"; "more"] (session 10) Hhistory).
Defined.


End MainLoopFacts.

(** * The tools *)

Section StringFacts.
Local Open Scope string_scope.

Lemma append_empty (s : string) : s ++ "" = s.
Proof. induction s as [|c s IH]; simpl; [reflexivity|now rewrite IH]. Qed.

Lemma append_append (a b c : string) : (a ++ b) ++ c = a ++ b ++ c.
Proof. induction a as [|x a IH]; simpl; [reflexivity|now rewrite IH]. Qed.

Lemma length_append (a b : string) :
  String.length (a ++ b) = (String.length a + String.length b)%nat.
Proof. induction a as [|x a IH]; simpl; [reflexivity|now rewrite IH]. Qed.

Lemma prefix_append (needle hay : string) :
  String.prefix needle hay = true <-> exists after, hay = needle ++ after.
Proof.
  revert hay. induction needle as [|a needle IH]; intros hay.
  - destruct hay; simpl; split; eauto.
  - destruct hay as [|b hay]; simpl.
    + split; [discriminate|]. intros (after & Hafter). discriminate.
    + destruct (Ascii.ascii_dec a b) as [->|Hdiff].
      * rewrite IH. split; intros (after & Hafter); exists after; congruence.
      * split; [discriminate|]. intros (after & Hafter). congruence.
Qed.

(** [String.index 0] finds the needle exactly when it occurs. *)
Lemma found_occurs (needle hay : string) :
  Tools.found needle hay = true <->
  exists before after, hay = before ++ needle ++ after.
Proof.
  unfold Tools.found. induction hay as [|b hay IH].
  - simpl. destruct needle as [|a needle]; split.
    + intros _. now exists "", "".
    + reflexivity.
    + discriminate.
    + intros ([|? before] & after & Hhay); simpl in Hhay; discriminate.
  - cbn [String.index].
    destruct (String.prefix needle (String b hay)) eqn:Hprefix.
    + split; [|reflexivity]. intros _.
      apply prefix_append in Hprefix. destruct Hprefix as (after & Hafter).
      now exists "", after.
    + destruct (String.index 0 needle hay) as [n|].
      * split; [|reflexivity]. intros _.
        destruct (proj1 IH eq_refl) as (before & after & ->).
        now exists (String b before), after.
      * split; [discriminate|]. intros ([|x before] & after & Hhay).
        -- simpl in Hhay.
           assert (String.prefix needle (String b hay) = true)
             by (apply prefix_append; now exists after).
           congruence.
        -- injection Hhay as -> ->.
           apply IH. now exists before, after.
Qed.
End StringFacts.

Section ToolFacts.
Import Tools.
Local Open Scope string_scope.

(** ** read_file *)

Lemma with_final_newline_step c d rest :
  with_final_newline (String c (String d rest)) =
    String c (with_final_newline (String d rest)).
Proof.
  unfold with_final_newline.
  change (ends_in_newline (String c (String d rest)))
    with (ends_in_newline (String d rest)).
  now destruct (ends_in_newline (String d rest)).
Qed.

Lemma until_newline_cons c rest :
  until_newline (String c rest) =
    if Ascii.eqb c newline then ("", rest)
    else (String c (fst (until_newline rest)), snd (until_newline rest)).
Proof. simpl. now destruct (until_newline rest). Qed.

Lemma until_newline_step c rest :
  (String.length (snd (until_newline (String c rest))) <= String.length rest)%nat /\
  fst (until_newline (String c rest)) ++ String newline ""
    ++ with_final_newline (snd (until_newline (String c rest))) =
    with_final_newline (String c rest).
Proof.
  revert c. induction rest as [|d rest IH]; intros c.
  - simpl. unfold with_final_newline. simpl.
    destruct (Ascii.eqb c newline) eqn:Hc; simpl.
    + apply Ascii.eqb_eq in Hc. now subst c.
    + split; reflexivity.
  - rewrite with_final_newline_step, until_newline_cons.
    destruct (Ascii.eqb c newline) eqn:Hc.
    + apply Ascii.eqb_eq in Hc. subst c. simpl. split; [lia|reflexivity].
    + destruct (IH d) as [Hshorter Hsame].
      cbn [fst snd String.length]. split; [lia|].
      cbn [append]. now rewrite <- Hsame.
Qed.

Lemma read_lines_result fuel : forall stream content,
  (String.length stream < fuel)%nat ->
  read_lines fuel stream content = Some (content ++ with_final_newline stream).
Proof.
  induction fuel as [|fuel IH]; intros stream content Hfuel; [lia|].
  destruct stream as [|c rest].
  - simpl. now rewrite append_empty.
  - cbn [read_lines getline].
    destruct (until_newline_step c rest) as [Hshorter Hsame].
    destruct (until_newline (String c rest)) as [line rest'].
    cbn [fst snd] in Hshorter, Hsame. cbn [String.length] in Hfuel.
    rewrite IH by lia. now rewrite !append_append, Hsame.
Qed.

(** X12: [read_file] gives back the bytes of a file that opens, with one
    change at most: a newline is added after a last line that has none (an
    empty file gives the empty string).  For a file that does not open it
    returns the error text, it does not throw. *)
Theorem read_file_result (files : string -> option string) (path : string) :
  (forall bytes, files path = Some bytes ->
     read_file files path = Some (with_final_newline bytes)) /\
  (files path = None ->
     read_file files path = Some ("Error: 无法打开文件 '" ++ path ++ "'")).
Proof.
  unfold read_file. split.
  - intros bytes ->. now rewrite read_lines_result by lia.
  - intros ->. reflexivity.
Qed.

Lemma read_file_result_witness :
  read_file (fun _ => Some ("a" ++ String newline "b")) "notes.txt" =
    Some ("a" ++ String newline ("b" ++ String newline "")) /\
  read_file (fun _ => None) "notes.txt" = Some "Error: 无法打开文件 'notes.txt'".
Proof.
  split.
  - exact (proj1 (read_file_result (fun _ => Some ("a" ++ String newline "b"))
                    "notes.txt") _ eq_refl).
  - exact (proj2 (read_file_result (fun _ => None) "notes.txt") eq_refl).
Defined.

(** ** execute_command *)

Lemma c_str_whole s : has_nul s = false -> c_str s = s.
Proof.
  induction s as [|c s IH]; simpl; [reflexivity|].
  destruct (Ascii.eqb c nul); simpl; [discriminate|].
  intros Hs. now rewrite IH.
Qed.

Lemma has_nul_append a b : has_nul (a ++ b) = has_nul a || has_nul b.
Proof.
  induction a as [|c a IH]; simpl; [reflexivity|].
  now rewrite IH, orb_assoc.
Qed.

Lemma fgets_from_cons room c rest :
  fgets_from (S room) (String c rest) =
    if Ascii.eqb c newline then (String c "", rest)
    else (String c (fst (fgets_from room rest)), snd (fgets_from room rest)).
Proof. simpl. now destruct (fgets_from room rest). Qed.

Lemma fgets_from_split room : forall stream,
  fst (fgets_from room stream) ++ snd (fgets_from room stream) = stream.
Proof.
  induction room as [|room IH]; intros [|c rest]; try reflexivity.
  rewrite fgets_from_cons. destruct (Ascii.eqb c newline); [reflexivity|].
  simpl. now rewrite IH.
Qed.

Lemma fgets_from_progress room c rest :
  (String.length (snd (fgets_from (S room) (String c rest)))
     <= String.length rest)%nat.
Proof.
  rewrite fgets_from_cons. destruct (Ascii.eqb c newline); [simpl; lia|].
  pose proof (fgets_from_split room rest) as Hsplit.
  cbn [snd]. rewrite <- Hsplit at 2. rewrite length_append. lia.
Qed.

Lemma gather_total fuel : forall stream result,
  (String.length stream < fuel)%nat ->
  exists text, gather fuel stream result = Some text.
Proof.
  induction fuel as [|fuel IH]; intros stream result Hfuel; [lia|].
  destruct stream as [|c rest]; [now exists result|].
  cbn [gather fgets]. change (128 - 1)%nat with 127%nat.
  pose proof (fgets_from_progress 126 c rest) as Hshorter.
  destruct (fgets_from 127 (String c rest)) as [buffer rest'].
  simpl in Hshorter, Hfuel. apply IH. lia.
Qed.

Lemma gather_whole fuel : forall stream result,
  (String.length stream < fuel)%nat ->
  has_nul stream = false ->
  gather fuel stream result = Some (result ++ stream).
Proof.
  induction fuel as [|fuel IH]; intros stream result Hfuel Hclean; [lia|].
  destruct stream as [|c rest]; [simpl; now rewrite append_empty|].
  cbn [gather fgets]. change (128 - 1)%nat with 127%nat.
  pose proof (fgets_from_progress 126 c rest) as Hshorter.
  pose proof (fgets_from_split 127 (String c rest)) as Hsplit.
  destruct (fgets_from 127 (String c rest)) as [buffer rest'].
  simpl in Hshorter, Hsplit, Hfuel.
  rewrite <- Hsplit, has_nul_append in Hclean.
  apply orb_false_iff in Hclean. destruct Hclean as [Hbuffer Hrest].
  rewrite IH by (lia || exact Hrest).
  now rewrite (c_str_whole _ Hbuffer), append_append, Hsplit.
Qed.

(** X13: [execute_command] hands a command to [popen] unless ["rm -rf"]
    or ["mkfs"] occurs in it, anywhere and with these very bytes; such a
    command gets the refusal and no process is started.  A command that is
    handed on is handed on as a C string, and every call returns a
    string. *)
Theorem dangerous_commands_refused (shell : string -> option (string * Z))
    (command : string) :
  (launched (execute_command shell command) = None <->
     exists before after,
       command = before ++ "rm -rf" ++ after \/
       command = before ++ "mkfs" ++ after) /\
  (launched (execute_command shell command) = None ->
     reply (execute_command shell command) = Some "Error: 危险命令被拒绝") /\
  (forall line, launched (execute_command shell command) = Some line ->
                line = c_str command) /\
  (exists text, reply (execute_command shell command) = Some text).
Proof.
  assert (Hdanger : dangerous command = true <->
            exists before after,
              command = before ++ "rm -rf" ++ after \/
              command = before ++ "mkfs" ++ after).
  { unfold dangerous. rewrite orb_true_iff, !found_occurs. split.
    - intros [(before & after & H)|(before & after & H)];
        exists before, after; [now left|now right].
    - intros (before & after & [H|H]); [left|right]; now exists before, after. }
  unfold execute_command.
  destruct (dangerous command).
  - simpl. split; [split; [intros _; now apply Hdanger|reflexivity]|].
    split; [reflexivity|]. split; [discriminate|]. now eexists.
  - assert (Hsafe : ~ exists before after,
              command = before ++ "rm -rf" ++ after \/
              command = before ++ "mkfs" ++ after).
    { intros H. apply Hdanger in H. discriminate. }
    destruct (shell (c_str command)) as [[output status]|]; cbn [launched reply].
    + split; [split; [discriminate|intros H; now destruct Hsafe]|].
      split; [discriminate|]. split; [now intros line [= <-]|].
      destruct (gather_total (S (String.length output)) output "")
        as (text & ->); [lia|].
      now eexists.
    + split; [split; [discriminate|intros H; now destruct Hsafe]|].
      split; [discriminate|]. split; [now intros line [= <-]|]. now eexists.
Qed.

Lemma dangerous_commands_refused_witness :
  launched (execute_command (fun _ => Some ("", 0%Z)) "sudo rm -rf /") = None /\
  reply (execute_command (fun _ => Some ("", 0%Z)) "sudo rm -rf /") =
    Some "Error: 危险命令被拒绝" /\
  launched (execute_command (fun _ => Some ("", 0%Z)) "rm  -rf /") <> None.
Proof.
  destruct (dangerous_commands_refused (fun _ => Some ("", 0%Z)) "sudo rm -rf /")
    as ((_ & Hrefused) & Hreply & _).
  assert (Hnone : launched (execute_command (fun _ => Some ("", 0%Z))
                              "sudo rm -rf /") = None).
  { apply Hrefused. exists "sudo ", " /". left. reflexivity. }
  split; [exact Hnone|]. split; [exact (Hreply Hnone)|].
  vm_compute. discriminate.
Defined.

(** X14: the output of a command that ran is returned whole, read in
    pieces of 127 bytes or up to a newline though it is, provided it has no
    NUL byte; when [pclose] gives a value other than 0 a line with that value
    follows it. *)
Theorem command_output_returned (shell : string -> option (string * Z))
    (command output : string) (status : Z) :
  dangerous command = false ->
  shell (c_str command) = Some (output, status) ->
  has_nul output = false ->
  reply (execute_command shell command) = Some (output ++ exit_note status).
Proof.
  intros Hsafe Hran Hclean. unfold execute_command, exit_note.
  rewrite Hsafe, Hran. cbn [reply].
  rewrite gather_whole by (lia || exact Hclean). cbn [append].
  destruct (status =? 0)%Z; [now rewrite append_empty|reflexivity].
Qed.

Lemma command_output_returned_witness :
  dangerous "ls docs" = false /\
  has_nul ("README.md" ++ String newline "guide.txt") = false /\
  reply (execute_command
           (fun _ => Some ("README.md" ++ String newline "guide.txt", 256%Z))
           "ls docs") =
    Some ("README.md" ++ String newline "guide.txt" ++ exit_note 256).
Proof.
  assert (Hsafe : dangerous "ls docs" = false) by reflexivity.
  assert (Hclean : has_nul ("README.md" ++ String newline "guide.txt") = false)
    by reflexivity.
  split; [exact Hsafe|]. split; [exact Hclean|].
  exact (command_output_returned
           (fun _ => Some ("README.md" ++ String newline "guide.txt", 256%Z))
           "ls docs" _ 256%Z Hsafe eq_refl Hclean).
Defined.

(** ** http_get *)

Lemma substring_whole n : forall s,
  (String.length s <= n)%nat -> String.substring 0 n s = s.
Proof.
  induction n as [|n IH]; intros [|c s]; simpl; try reflexivity; try lia.
  intros Hs. rewrite IH by lia. reflexivity.
Qed.




End ToolFacts.

(** * minimal_agent.cxx *)

Section MinimalFacts.
Import Minimal.

(** X16: when the request of the minimal program comes back with a status
    other than 200, [call_claude] writes the status and the body to
    [std::cerr] and returns the empty string, [json::parse] rejects it, and
    [main] ends on the uncaught [json::parse_error]: it neither prints a
    response nor returns. *)
Theorem minimal_agent_fails_on_error_status
    (post : string -> Z * string) (parse : string -> option json)
    (dump : json -> string) (api_key text : string) (status_code : Z) :
  parse EmptyString = None ->
  post api_key = (status_code, text) ->
  status_code <> 200%Z ->
  main (Some api_key) post parse dump =
    (uncaught_parse_error, [err_status status_code; err_body text]).
Proof.
  intros Hparse Hpost Hstatus. unfold main, call_claude. rewrite Hpost.
  apply Z.eqb_neq in Hstatus. rewrite Hstatus. simpl. now rewrite Hparse.
Qed.

Lemma minimal_agent_fails_on_error_status_witness :
  (fun text => if String.eqb text "" then None else Some j_null) EmptyString
    = None /\
  main (Some "key") (fun _ => (401%Z, "invalid x-api-key"))
       (fun text => if String.eqb text "" then None else Some j_null)
       (fun _ => "null") =
    (uncaught_parse_error, [err_status 401; err_body "invalid x-api-key"]).
Proof.
  split; [reflexivity|].
  apply (minimal_agent_fails_on_error_status
           (fun _ => (401%Z, "invalid x-api-key"))
           (fun text => if String.eqb text "" then None else Some j_null)
           (fun _ => "null") "key" "invalid x-api-key" 401%Z).
  - reflexivity.
  - reflexivity.
  - discriminate.
Defined.
End MinimalFacts.
